(** * Dashboard-Metro-RER: the load / filter / aggregate pipeline of [app.py]

    A shallow embedding of the data pipeline of [src/app.py] (the Streamlit
    shell and the plotly rendering calls are presentation and are left out):

    - [load_data]  (lines 29-71): existence check, [read_csv], header
      clean-up, keyword mapping of the headers, renaming, cleaning of the
      [Trafic], [Ville] and [Reseau] columns;
    - [main] up to its key figures (lines 145-181): the options of the
      widgets, the filter (165-167), the figures (172-181);
    - the tables handed to the charts: [plot_sunburst] (78), [plot_top_bar]
      (92), [plot_donut] (103), [plot_treemap_cities] (122-123), and the
      detailed table (202).

    Python [str] values are lists of Unicode code points, a data frame is an
    ordered list of column labels with a list of rows, and an exception is
    an explicit [Raise] outcome. *)

From Stdlib Require Import String Ascii DecimalString.
From Stdlib Require DecimalPos.
From Stdlib Require Import List ZArith NArith Lia Bool Permutation.
Import ListNotations.

Set Implicit Arguments.
Local Open Scope Z_scope.

(* ================================================================= *)
(** ** Python strings *)

(** A [str] is its sequence of code points. *)
Definition pystr := list N.

(** Decoding of the UTF-8 bytes of a literal of this file. *)
Fixpoint utf8_decode (bs : list N) : pystr :=
  match bs with
  | [] => []
  | b :: r =>
    if (b <? 128)%N then b :: utf8_decode r
    else if (b <? 224)%N then
      match r with
      | c1 :: r1 => ((b mod 32) * 64 + c1 mod 64)%N :: utf8_decode r1
      | [] => [b]
      end
    else if (b <? 240)%N then
      match r with
      | c1 :: c2 :: r2 =>
        ((b mod 16) * 4096 + (c1 mod 64) * 64 + c2 mod 64)%N :: utf8_decode r2
      | _ => [b]
      end
    else
      match r with
      | c1 :: c2 :: c3 :: r3 =>
        ((b mod 8) * 262144 + (c1 mod 64) * 4096 + (c2 mod 64) * 64 + c3 mod 64)%N
          :: utf8_decode r3
      | _ => [b]
      end
  end.

Definition py (s : string) : pystr :=
  utf8_decode (map N_of_ascii (list_ascii_of_string s)).

Definition pystr_eqb (a b : pystr) : bool :=
  if list_eq_dec N.eq_dec a b then true else false.

(** [str.isspace] of one character, which is also what [\s] matches in a
    [str] pattern. *)
Definition isspace (c : N) : bool :=
  ((9 <=? c) && (c <=? 13) || (28 <=? c) && (c <=? 32)
   || (c =? 133) || (c =? 160) || (c =? 5760)
   || (8192 <=? c) && (c <=? 8202)
   || (c =? 8232) || (c =? 8233) || (c =? 8239) || (c =? 8287)
   || (c =? 12288))%N.

(** Case mapping of one character.  Basic Latin and the Latin-1 Supplement
    are covered; a code point above U+00FF is treated as uncased and left
    as it is. *)
Definition is_upper (c : N) : bool :=
  ((65 <=? c) && (c <=? 90)
   || (192 <=? c) && (c <=? 222) && negb (c =? 215))%N.

Definition is_lower (c : N) : bool :=
  ((97 <=? c) && (c <=? 122)
   || (c =? 170) || (c =? 181) || (c =? 186)
   || (223 <=? c) && (c <=? 255) && negb (c =? 247))%N.

Definition is_cased (c : N) : bool := is_upper c || is_lower c.

(** The characters below U+0100, on which the case mapping above is that
    of Python. *)
Definition latin1 (c : N) : bool := (c <? 256)%N.

(** The characters below U+0100 whose case forms are single characters:
    all but [ß], whose title-case form is the two letters [Ss], and the
    ordinal indicators [ª] and [º], which are cased without having case
    forms. *)
Definition plain_case (c : N) : bool :=
  latin1 c && negb ((c =? 170) || (c =? 186) || (c =? 223))%N.

Definition lower_char (c : N) : N :=
  if is_upper c then (c + 32)%N else c.

(** Title-case form of one character: [ß] becomes [Ss], [ÿ] and [µ] leave
    Latin-1. *)
Definition title_char (c : N) : pystr :=
  if ((97 <=? c) && (c <=? 122))%N then [(c - 32)%N]
  else if ((224 <=? c) && (c <=? 254) && negb (c =? 247))%N then [(c - 32)%N]
  else if (c =? 223)%N then [83; 115]%N
  else if (c =? 255)%N then [376]%N
  else if (c =? 181)%N then [924]%N
  else [c].

(** No character of the text is an upper-case letter. *)
Definition no_upper (s : pystr) : Prop :=
  Forall (fun c => is_upper c = false) s.

(** [s.lower()] *)
Definition lower (s : pystr) : pystr := map lower_char s.

Fixpoint lstrip (s : pystr) : pystr :=
  match s with
  | c :: s' => if isspace c then lstrip s' else s
  | [] => []
  end.

(** [s.strip()] *)
Definition strip (s : pystr) : pystr := rev (lstrip (rev (lstrip s))).

(** [s.startswith(p)] *)
Fixpoint startswith (p s : pystr) : bool :=
  match p, s with
  | [], _ => true
  | a :: p', b :: s' => (a =? b)%N && startswith p' s'
  | _ :: _, [] => false
  end.

(** [k in c] *)
Fixpoint contains (k c : pystr) : bool :=
  startswith k c
  || match c with
     | [] => false
     | _ :: c' => contains k c'
     end.

(** [s.replace(old, new)] for a non-empty [old]: the occurrences are
    replaced from left to right without overlap; [skip] counts the
    characters of a matched occurrence that are still to be passed over. *)
Fixpoint replace_from (old new : pystr) (skip : nat) (s : pystr) : pystr :=
  match s with
  | [] => []
  | a :: s' =>
    match skip with
    | S k => replace_from old new k s'
    | O =>
      if startswith old s
      then new ++ replace_from old new (length old - 1) s'
      else a :: replace_from old new 0 s'
    end
  end.

Definition replace (old new s : pystr) : pystr := replace_from old new 0 s.

(** [s.title()]: a character is title-cased unless the one before it is
    cased, in which case it is lower-cased. *)
Fixpoint title_from (previous_is_cased : bool) (s : pystr) : pystr :=
  match s with
  | [] => []
  | c :: s' =>
    (if previous_is_cased then [lower_char c] else title_char c)
      ++ title_from (is_cased c) s'
  end.

Definition title (s : pystr) : pystr := title_from false s.

(** [re.sub(r'\s+', '', s)]: every run of white space is deleted, so no
    white-space character is left. *)
Definition remove_whitespace (s : pystr) : pystr :=
  filter (fun c => negb (isspace c)) s.

(** [str(z)] of an integer. *)
Definition str_of_Z (z : Z) : pystr :=
  map N_of_ascii (list_ascii_of_string (NilZero.string_of_int (Z.to_int z))).

(* ================================================================= *)
(** ** Values, exceptions, frames *)

(** One element of a column: missing ([NaN]), a text or an integer.  A
    column of decimal fractions read from the file is not modelled. *)
Inductive cell :=
| NaN
| Str (s : pystr)
| Num (z : Z).

Definition cell_eq_dec (a b : cell) : {a = b} + {a <> b}.
Proof.
  decide equality; [apply (list_eq_dec N.eq_dec) | apply Z.eq_dec].
Defined.

Definition cell_eqb (a b : cell) : bool :=
  if cell_eq_dec a b then true else false.

Inductive exn :=
| KeyError
| AttributeError
| TypeError
| ValueError
| IntCastingNaNError.

Inductive result (A : Type) :=
| Ok (a : A)
| Raise (e : exn).
Arguments Raise {A} e.

Definition bind {A B} (r : result A) (k : A -> result B) : result B :=
  match r with
  | Ok a => k a
  | Raise e => Raise e
  end.

Notation "x <- r ;; k" := (bind r (fun x => k))
  (at level 61, r at next level, right associativity).

(** A data frame: the column labels in order, and the rows, each with one
    cell per column.  The row index is not modelled: rows are addressed by
    position. *)
Record DataFrame := {
  columns : list pystr;
  rows : list (list cell)
}.

(** [pd.DataFrame()] *)
Definition empty_frame : DataFrame := {| columns := []; rows := [] |}.

(** Every row has one cell per column. *)
Definition rectangular (df : DataFrame) : Prop :=
  Forall (fun r => length r = length (columns df)) (rows df).

(** [df.empty]: one of the two axes has length zero. *)
Definition empty (df : DataFrame) : bool :=
  match columns df, rows df with
  | [], _ | _, [] => true
  | _, _ => false
  end.

(** [name in df.columns] *)
Definition has_column (name : pystr) (df : DataFrame) : bool :=
  existsb (pystr_eqb name) (columns df).

(** The positions at which a label occurs among the columns. *)
Fixpoint positions (name : pystr) (cols : list pystr) (i : nat) : list nat :=
  match cols with
  | [] => []
  | c :: cols' =>
    if pystr_eqb name c then i :: positions name cols' (S i)
    else positions name cols' (S i)
  end.

(** The column at one position, as a sequence of cells. *)
Definition series (df : DataFrame) (i : nat) : list cell :=
  map (fun r => nth i r NaN) (rows df).

Fixpoint set_nth (i : nat) (v : cell) (r : list cell) : list cell :=
  match r, i with
  | [], _ => []
  | _ :: r', O => v :: r'
  | c :: r', S i' => c :: set_nth i' v r'
  end.

(** [df[name] = s] for the column at position [i]. *)
Definition assign (df : DataFrame) (i : nat) (s : list cell) : DataFrame :=
  {| columns := columns df;
     rows := map (fun rv => set_nth i (snd rv) (fst rv)) (combine (rows df) s) |}.

(** [df[name]] used as one column.  A missing label is a [KeyError].  With
    a repeated label pandas hands back a frame instead of a column; no
    table with a repeated [Trafic], [Ville] or [Reseau] label leaves
    [load_data] (its [.str] accesses fail on a frame), so the later stages
    never meet the case and it is given the same outcome there. *)
Definition getitem (df : DataFrame) (name : pystr) : result (list cell) :=
  match positions name (columns df) 0 with
  | [] => Raise KeyError
  | [i] => Ok (series df i)
  | _ :: _ :: _ => Raise AttributeError
  end.

(** [row[name]] on one row of the frame, used as a scalar. *)
Definition row_getitem (cols : list pystr) (r : list cell) (name : pystr)
  : result cell :=
  match positions name cols 0 with
  | [] => Raise KeyError
  | [i] => Ok (nth i r NaN)
  | _ :: _ :: _ => Raise TypeError
  end.

Fixpoint traverse {A B} (f : A -> result B) (l : list A) : result (list B) :=
  match l with
  | [] => Ok []
  | a :: l' => b <- f a ;; bs <- traverse f l' ;; Ok (b :: bs)
  end.

(* ================================================================= *)
(** ** Numeric parsing: [pd.to_numeric(..., errors='coerce')] *)

(** What one text parses to: not-a-number, an infinity, or the decimal
    number [± mantissa * 10 ^ exponent].  pandas holds the parsed column as
    [int64] when every element is an integer literal that fits, and as
    [float64] otherwise.  The ranges of the two types are part of the
    model ([float64_max], [wrap64]); the rounding of [float64] is not, so
    the numbers are exact here and the properties of the [Trafic] column
    are stated for the elements both types hold exactly ([exact_trafic]). *)
Inductive number :=
| NNaN
| NInf (negative : bool)
| NDec (negative : bool) (mantissa : N) (exponent : Z).

(** The largest finite [float64]. *)
Definition float64_max : Z := (2 ^ 53 - 1) * 2 ^ 971.

(** The integer part of the magnitude [mantissa * 10 ^ exponent]. *)
Definition magnitude (m : N) (e : Z) : Z :=
  if 0 <=? e then Z.of_N m * 10 ^ e else Z.of_N m / 10 ^ (- e).

(** An [int64] holds the integers from [- 2 ^ 63] to [2 ^ 63 - 1]; a result
    outside that range wraps around. *)
Definition wrap64 (z : Z) : Z := (z + 2 ^ 63) mod 2 ^ 64 - 2 ^ 63.

Definition is_digit (c : N) : bool := ((48 <=? c) && (c <=? 57))%N.

Fixpoint scan_digits (acc : N) (count : nat) (s : pystr) : N * nat * pystr :=
  match s with
  | c :: s' =>
    if is_digit c then scan_digits (acc * 10 + (c - 48))%N (S count) s'
    else (acc, count, s)
  | [] => (acc, count, [])
  end.

Definition scan_sign (s : pystr) : bool * pystr :=
  match s with
  | c :: s' =>
    if (c =? 45)%N then (true, s')
    else if (c =? 43)%N then (false, s')
    else (false, s)
  | [] => (false, [])
  end.

(** The literals of the numeric scanner: an optional sign, digits with an
    optional decimal point (at least one digit in all), an optional
    exponent [e] or [E] with its own sign and at least one digit, and
    nothing after. *)
Definition parse_decimal (s : pystr) : option number :=
  let (neg, s1) := scan_sign s in
  let '(ip, n1, s2) := scan_digits 0 0 s1 in
  let '(m, n2, s3) :=
    match s2 with
    | c :: t => if (c =? 46)%N then scan_digits ip 0 t else (ip, O, s2)
    | [] => (ip, O, s2)
    end in
  if (n1 + n2 =? 0)%nat then None
  else
    match s3 with
    | [] => Some (NDec neg m (- Z.of_nat n2))
    | c :: t =>
      if ((c =? 101) || (c =? 69))%N then
        let (eneg, t1) := scan_sign t in
        let '(ev, n3, t2) := scan_digits 0 0 t1 in
        match n3, t2 with
        | S _, [] =>
          Some (NDec neg m
                  ((if eneg then - Z.of_N ev else Z.of_N ev) - Z.of_nat n2))
        | _, _ => None
        end
      else None
    end.

(** One element under [errors='coerce']: a decimal literal, which is an
    infinity when its magnitude is beyond the range of [float64], else one
    of the names of an infinity in any letter case, else not-a-number. *)
Definition to_numeric (s : pystr) : number :=
  match parse_decimal s with
  | Some (NDec neg m e) =>
    if float64_max <? magnitude m e then NInf neg else NDec neg m e
  | Some n => n
  | None =>
    let l := lower s in
    if existsb (pystr_eqb l)
         [py "inf"; py "+inf"; py "infinity"; py "+infinity"]
    then NInf false
    else if existsb (pystr_eqb l) [py "-inf"; py "-infinity"]
    then NInf true
    else NNaN
  end.

(** [pd.to_numeric] on one element of a column. *)
Definition to_numeric_cell (c : cell) : number :=
  match c with
  | NaN => NNaN
  | Str s => to_numeric s
  | Num z => NDec (z <? 0) (Z.abs_N z) 0
  end.

(** [.fillna(0)] on a numeric element. *)
Definition fillna_zero (n : number) : number :=
  match n with
  | NNaN => NDec false 0 0
  | _ => n
  end.

(** [.astype(int)] on a numeric element: truncation toward zero into an
    [int64]; a value that is not finite cannot be cast.  An integer column
    past [2 ^ 63 - 1] wraps around; what the cast of a [float64] past that
    range gives depends on the platform and is not claimed anywhere. *)
Definition astype_int (n : number) : result Z :=
  match n with
  | NDec neg m e =>
    let a := magnitude m e in
    Ok (wrap64 (if neg then - a else a))
  | NInf _ | NNaN => Raise IntCastingNaNError
  end.

(** [.astype(str)] on one element.  (In a [float64] column pandas prints
    the integer [z] as [z.0], which parses back to the same number.) *)
Definition astype_str (c : cell) : pystr :=
  match c with
  | NaN => py "nan"
  | Str s => s
  | Num z => str_of_Z z
  end.

(** [.fillna(text)] on one element. *)
Definition fillna (v : pystr) (c : cell) : cell :=
  match c with
  | NaN => Str v
  | _ => c
  end.

Definition is_str (c : cell) : bool :=
  match c with
  | Str _ => true
  | _ => false
  end.

(** The [.str] accessor.  It exists on a column that holds texts, also
    mixed with other values, and on a column without elements; a numeric
    column has none. *)
Definition str_accessor (s : list cell) : result (list cell) :=
  match s with
  | [] => Ok []
  | _ :: _ => if existsb is_str s then Ok s else Raise AttributeError
  end.

(** A [.str] method on one element: applied to a text, missing on anything
    else. *)
Definition str_method (f : pystr -> pystr) (c : cell) : cell :=
  match c with
  | Str s => Str (f s)
  | _ => NaN
  end.

(* ================================================================= *)
(** ** [load_data] *)

(** The canonical column labels. *)
Definition Reseau : pystr := py "Reseau".
Definition Station : pystr := py "Station".
Definition Trafic : pystr := py "Trafic".
Definition Ville : pystr := py "Ville".
Definition Arr : pystr := py "Arr".

(** What the loader finds at [FILE_PATH]: whether the path exists, and what
    [pd.read_csv] makes of it ([None] when it raises). *)
Record source := {
  path_exists : bool;
  read_csv : option DataFrame
}.

(** Line 39: [c.lower().strip().replace(' ', '_')]. *)
Definition normalize_header (c : pystr) : pystr :=
  replace (py " ") (py "_") (strip (lower c)).

(** Lines 42-45: the first column whose label contains one of the keys. *)
Definition get_col (cols : list pystr) (keys : list pystr) : option pystr :=
  find (fun c => existsb (fun k => contains k c) keys) cols.

(** The keyword lists of lines 48-52, in the order of the dict literal. *)
Definition field_keys : list (pystr * list pystr) :=
  [ (Reseau, [py "reseau"; py "réseau"]);
    (Station, [py "station"; py "nom"]);
    (Trafic, [py "trafic"; py "validations"]);
    (Ville, [py "ville"; py "commune"]);
    (Arr, [py "arrondissement"]) ].

(** Lines 47-53: the dict [mapping], as its items in insertion order. *)
Definition mapping (cols : list pystr) : list (pystr * option pystr) :=
  map (fun fk => (fst fk, get_col cols (snd fk))) field_keys.

(** A dict with text keys, as its items in insertion order. *)
Definition dict := list (pystr * pystr).

(** [d[k] = v]: a key already present keeps its place and takes the new
    value. *)
Fixpoint dict_set (d : dict) (k v : pystr) : dict :=
  match d with
  | [] => [(k, v)]
  | (k', v') :: d' =>
    if pystr_eqb k' k then (k', v) :: d' else (k', v') :: dict_set d' k v
  end.

Fixpoint dict_get (d : dict) (k : pystr) : option pystr :=
  match d with
  | [] => None
  | (k', v') :: d' => if pystr_eqb k' k then Some v' else dict_get d' k
  end.

(** Truth value of [v] in [if v]: neither [None] nor the empty text. *)
Definition truthy (v : option pystr) : bool :=
  match v with
  | Some (_ :: _) => true
  | _ => false
  end.

(** Line 56: [{v: k for k, v in mapping.items() if v}]. *)
Definition final_cols (m : list (pystr * option pystr)) : dict :=
  fold_left
    (fun d kv =>
       match snd kv with
       | Some v => if truthy (Some v) then dict_set d v (fst kv) else d
       | None => d
       end)
    m [].

(** Line 57: [df.rename(columns=final_cols)]. *)
Definition rename (df : DataFrame) (d : dict) : DataFrame :=
  {| columns :=
       map (fun c => match dict_get d c with
                     | Some k => k
                     | None => c
                     end) (columns df);
     rows := rows df |}.

(** Lines 60-62.  The column is turned into text, white space is deleted,
    the text is parsed with failures coerced to not-a-number, which
    [fillna(0)] replaces, and the numbers are cast to integers.  The model
    goes element by element, where pandas settles the number type for the
    column as a whole; the two agree on the elements of [exact_trafic]
    below, for which the properties of this column are stated. *)
Definition clean_trafic (df : DataFrame) : result DataFrame :=
  if has_column Trafic df then
    match positions Trafic (columns df) 0 with
    | [i] =>
      texts <- str_accessor (map (fun c => Str (astype_str c)) (series df i)) ;;
      let cleaned := map (str_method remove_whitespace) texts in
      ints <- traverse
                (fun c => astype_int (fillna_zero (to_numeric_cell c)))
                cleaned ;;
      Ok (assign df i (map Num ints))
    | _ => Raise AttributeError
    end
  else Ok df.

(** The integer lines 61-62 store for one element of the [Trafic] column. *)
Definition trafic_value (c : cell) : result Z :=
  astype_int (fillna_zero (to_numeric (remove_whitespace (astype_str c)))).

(** Lines 65-66. *)
Definition clean_ville (df : DataFrame) : result DataFrame :=
  if has_column Ville df then
    match positions Ville (columns df) 0 with
    | [i] =>
      s <- str_accessor (map (fillna (py "Inconnue")) (series df i)) ;;
      Ok (assign df i (map (str_method title) s))
    | _ => Raise AttributeError
    end
  else Ok df.

(** Lines 68-69. *)
Definition clean_reseau (df : DataFrame) : result DataFrame :=
  if has_column Reseau df then
    match positions Reseau (columns df) 0 with
    | [i] =>
      s <- str_accessor (map (fillna (py "Autre")) (series df i)) ;;
      Ok (assign df i (map (str_method (replace (py "Metro") (py "Métro"))) s))
    | _ => Raise AttributeError
    end
  else Ok df.

(** Lines 59-69: the cleaning of the fields, in the order of the code. *)
Definition field_normalizer (df : DataFrame) : result DataFrame :=
  df1 <- clean_trafic df ;;
  df2 <- clean_ville df1 ;;
  clean_reseau df2.

(** Lines 39-57: the headers cleaned, mapped and renamed. *)
Definition rename_headers (df : DataFrame) : DataFrame :=
  let df := {| columns := map normalize_header (columns df);
               rows := rows df |} in
  rename df (final_cols (mapping (columns df))).

(** Lines 29-71. *)
Definition load_data (src : source) : result DataFrame :=
  if negb (path_exists src) then Ok empty_frame
  else
    match read_csv src with
    | None => Ok empty_frame
    | Some df => field_normalizer (rename_headers df)
    end.

(** The element does not read as an infinity once its white space is
    removed: it neither names one nor is a literal beyond the range of
    [float64]. *)
Definition finite_trafic (c : cell) : bool :=
  match to_numeric (remove_whitespace (astype_str c)) with
  | NInf _ => false
  | _ => true
  end.

Definition is_num (c : cell) : bool :=
  match c with
  | Num _ => true
  | _ => false
  end.

(** The spellings of an infinity, in lower case. *)
Definition infinity_names : list pystr :=
  [py "inf"; py "+inf"; py "infinity"; py "+infinity";
   py "-inf"; py "-infinity"].

(** An integer written in full: an optional sign and from one to fifteen
    digits, which [int64] and [float64] both hold exactly. *)
Definition plain_integer (t : pystr) : bool :=
  let (_, ds) := scan_sign t in
  forallb is_digit ds && (1 <=? length ds)%nat && (length ds <=? 15)%nat.

(** The elements of the [Trafic] column for which lines 61-62 do not depend
    on the rounding of [float64] or on the type pandas gives the column:
    once the white space is removed, the text is an integer written in
    full, or the name of an infinity, or no number at all. *)
Definition exact_trafic (c : cell) : bool :=
  match to_numeric (remove_whitespace (astype_str c)) with
  | NDec _ _ _ => plain_integer (remove_whitespace (astype_str c))
  | NInf _ => existsb (pystr_eqb (lower (remove_whitespace (astype_str c))))
                       infinity_names
  | NNaN => true
  end.

(** A sufficient condition for the cleaning of the fields to return: no
    label is repeated, every element of the [Trafic] column is an integer
    written in full or no number at all, and the [Ville] and [Reseau]
    columns hold no number. *)
Definition cleanable (df : DataFrame) : Prop :=
  NoDup (columns df)
  /\ (forall i, In i (positions Trafic (columns df) 0) ->
                Forall (fun c => exact_trafic c = true
                                 /\ finite_trafic c = true) (series df i))
  /\ (forall i, In i (positions Ville (columns df) 0) ->
                Forall (fun c => is_num c = false) (series df i))
  /\ (forall i, In i (positions Reseau (columns df) 0) ->
                Forall (fun c => is_num c = false) (series df i)).

(* ================================================================= *)
(** ** The filter and the key figures of [main] *)

(** [s.isin(values)] *)
Definition isin (s : list cell) (values : list cell) : list bool :=
  map (fun c => existsb (cell_eqb c) values) s.

(** [df[mask]] with a boolean column as mask. *)
Fixpoint select_rows (rs : list (list cell)) (mask : list bool)
  : list (list cell) :=
  match rs, mask with
  | r :: rs', b :: mask' =>
    if b then r :: select_rows rs' mask' else select_rows rs' mask'
  | _, _ => []
  end.

Definition select (df : DataFrame) (mask : list bool) : DataFrame :=
  {| columns := columns df; rows := select_rows (rows df) mask |}.

(** Lines 165-167. *)
Definition filter_stage (df : DataFrame) (sel_res sel_city : list cell)
  : result DataFrame :=
  res <- getitem df Reseau ;;
  let df_viz := select df (isin res sel_res) in
  match sel_city with
  | _ :: _ =>
    cities <- getitem df_viz Ville ;;
    Ok (select df_viz (isin cities sel_city))
  | [] => Ok df_viz
  end.

(** The values of an [int64] column, which is what [load_data] leaves in
    [Trafic].  A column with any other element is not modelled further and
    stops here. *)
Definition int_values (s : list cell) : result (list Z) :=
  traverse (fun c => match c with
                     | Num z => Ok z
                     | _ => Raise TypeError
                     end) s.

(** The sum of a list of integers. *)
Definition exact_sum (l : list Z) : Z := fold_right Z.add 0 l.

(** [s.sum()] on an [int64] column: the values are added one after the
    other in an [int64], which wraps around. *)
Definition sum (l : list Z) : Z :=
  fold_left (fun acc x => wrap64 (acc + x)) l 0.

Fixpoint argmax_from (best_i : nat) (best : Z) (i : nat) (l : list Z) : nat :=
  match l with
  | [] => best_i
  | x :: l' =>
    if best <? x then argmax_from i x (S i) l'
    else argmax_from best_i best (S i) l'
  end.

(** [s.idxmax()]: the position of the first largest value; none in a
    column without elements. *)
Definition idxmax (l : list Z) : result nat :=
  match l with
  | [] => Raise ValueError
  | x :: l' => Ok (argmax_from 0 x 1 l')
  end.

(** The four figures of lines 172-181 before they are formatted.  The mean
    is a [float64], the quotient of the sum of the values taken in
    [float64] by the number of rows.  It is given as the pair of the exact
    sum and the number of rows, [None] standing for the not-a-number that
    the mean of no rows is; the [float64] sum is the exact one as long as
    the magnitudes add up to no more than [2 ^ 53]. *)
Record key_figures := {
  total : Z;
  stations : nat;
  top_station : cell;
  mean : option (Z * nat)
}.

(** Lines 177-178. *)
Definition top_station_of (df_viz : DataFrame) : result cell :=
  top_s <- (if negb (empty df_viz) then
              s <- getitem df_viz Trafic ;;
              ints <- int_values s ;;
              i <- idxmax ints ;;
              Ok (Some (nth i (rows df_viz) []))
            else Ok None) ;;
  match top_s with
  | Some r => row_getitem (columns df_viz) r Station
  | None => Ok (Str (py "-"))
  end.

(** Lines 172-181. *)
Definition kpis (df_viz : DataFrame) : result key_figures :=
  s <- getitem df_viz Trafic ;;
  ints <- int_values s ;;
  let n := length (rows df_viz) in
  top <- top_station_of df_viz ;;
  Ok {| total := sum ints;
        stations := n;
        top_station := top;
        mean := match n with
                | O => None
                | S _ => Some (exact_sum ints, n)
                end |}.

(* ================================================================= *)
(** ** The tables of the charts *)

(** A row with the [Trafic] value it is ranked by. *)
Abbreviation keyed := (Z * list cell)%type.

(** Insertion into a list in descending order of the key; the new element
    goes before the elements of the same key. *)
Fixpoint insert_desc (x : keyed) (l : list keyed) : list keyed :=
  match l with
  | [] => [x]
  | y :: l' => if fst y <=? fst x then x :: l else y :: insert_desc x l'
  end.

(** Rows in descending order of the key, rows of equal key in their
    original order (pandas' default sort leaves that order open). *)
Definition sort_desc (l : list keyed) : list keyed :=
  fold_right insert_desc [] l.

(** [descending l]: every element is at least as large as all that follow
    it. *)
Inductive descending : list keyed -> Prop :=
| descending_nil : descending []
| descending_cons x l :
    (forall y, In y l -> fst y <= fst x) -> descending l ->
    descending (x :: l).

(** [df.sort_values('Trafic', ascending=False).head(n)], which is also what
    [df.nlargest(n, 'Trafic')] selects. *)
Definition largest (n : nat) (df : DataFrame) : result DataFrame :=
  s <- getitem df Trafic ;;
  ints <- int_values s ;;
  Ok {| columns := columns df;
        rows := map snd (firstn n (sort_desc (combine ints (rows df)))) |}.

(** Line 78: the rows behind the sunburst chart. *)
Definition plot_sunburst (df : DataFrame) : result DataFrame :=
  largest 100 df.

(** Line 92: the rows behind the bar chart. *)
Definition plot_top_bar (df : DataFrame) : result DataFrame :=
  largest 15 df.

(** Lexicographic order on texts, by code point. *)
Fixpoint pystr_leb (a b : pystr) : bool :=
  match a, b with
  | [], _ => true
  | _ :: _, [] => false
  | x :: a', y :: b' => (x <? y)%N || (x =? y)%N && pystr_leb a' b'
  end.

(** The order group keys are sorted in: numbers before texts. *)
Definition cell_leb (a b : cell) : bool :=
  match a, b with
  | Num x, Num y => x <=? y
  | Num _, _ => true
  | Str _, Num _ => false
  | Str x, Str y => pystr_leb x y
  | Str _, NaN => true
  | NaN, NaN => true
  | NaN, _ => false
  end.

Fixpoint insert_key (x : cell) (l : list cell) : list cell :=
  match l with
  | [] => [x]
  | y :: l' => if cell_leb x y then x :: l else y :: insert_key x l'
  end.

Definition is_null (c : cell) : bool :=
  match c with
  | NaN => true
  | _ => false
  end.

(** The keys of [groupby(...)]: the distinct values that are not missing
    (rows with a missing key are left out of every group), sorted. *)
Definition group_keys (keys : list cell) : list cell :=
  fold_right insert_key []
    (nodup cell_eq_dec (filter (fun c => negb (is_null c)) keys)).

(** The values whose key is [k], and their sum. *)
Definition group_values (k : cell) (keyed_values : list (cell * Z)) : list Z :=
  map snd (filter (fun kv => cell_eqb (fst kv) k) keyed_values).

Definition group_sum (k : cell) (keyed_values : list (cell * Z)) : Z :=
  sum (group_values k keyed_values).

(** Line 103: [df.groupby('Reseau')['Trafic'].sum().reset_index()], the
    table behind the donut chart. *)
Definition plot_donut (df : DataFrame) : result DataFrame :=
  keys <- getitem df Reseau ;;
  s <- getitem df Trafic ;;
  ints <- int_values s ;;
  Ok {| columns := [Reseau; Trafic];
        rows := map (fun k => [k; Num (group_sum k (combine keys ints))])
                    (group_keys keys) |}.

(** The order of a sequence inside another: elements may be left out, none
    is changed or moved. *)
Inductive subseq {A : Type} : list A -> list A -> Prop :=
| subseq_nil : subseq [] []
| subseq_skip a l1 l2 : subseq l1 l2 -> subseq l1 (a :: l2)
| subseq_keep a l1 l2 : subseq l1 l2 -> subseq (a :: l1) (a :: l2).

(* ================================================================= *)
(** ** Which field keeps a header *)

(** The field that keeps a header according to the written rule "the first
    field in the order Network, Station, Traffic, City, District to claim a
    header wins": the first field, in that order, whose scan selects [h]. *)
Definition option_pystr_eqb (a b : option pystr) : bool :=
  match a, b with
  | Some x, Some y => pystr_eqb x y
  | None, None => true
  | _, _ => false
  end.

Definition claims (cols : list pystr) (h : pystr) (fk : pystr * list pystr)
  : bool :=
  option_pystr_eqb (get_col cols (snd fk)) (Some h).

Definition first_claimant (cols : list pystr) (h : pystr) : option pystr :=
  option_map fst (find (claims cols h) field_keys).

(** A header matches a field when it contains one of the field's
    keywords. *)
Definition matches (h : pystr) (fk : pystr * list pystr) : bool :=
  existsb (fun k => contains k h) (snd fk).

(** The last field, in the same order, whose scan selects [h]. *)
Definition last_claimant (cols : list pystr) (h : pystr) : option pystr :=
  option_map fst (find (claims cols h) (rev field_keys)).

(** The field a header is renamed to by [load_data], if any. *)
Definition renamed_to (cols : list pystr) (h : pystr) : option pystr :=
  dict_get (final_cols (mapping cols)) h.

(* ================================================================= *)
(** ** The rest of [main] *)

(** [s.unique()]: the values in the order of their first appearance. *)
Fixpoint unique_from (seen s : list cell) : list cell :=
  match s with
  | [] => []
  | c :: s' =>
    if existsb (cell_eqb c) seen then unique_from seen s'
    else c :: unique_from (c :: seen) s'
  end.

Definition unique (s : list cell) : list cell := unique_from [] s.

(** Whether a row passes the two tests of lines 165-167, the [Reseau]
    column being at position [i] and the [Ville] column at [j]. *)
Definition passes (i j : nat) (sel_res sel_city : list cell) (r : list cell)
  : bool :=
  existsb (cell_eqb (nth i r NaN)) sel_res
  && match sel_city with
     | [] => true
     | _ :: _ => existsb (cell_eqb (nth j r NaN)) sel_city
     end.

(** Line 202: [df_viz.sort_values('Trafic', ascending=False)], the table
    under "Données détaillées". *)
Definition detailed_data (df : DataFrame) : result DataFrame :=
  s <- getitem df Trafic ;;
  ints <- int_values s ;;
  Ok {| columns := columns df;
        rows := map snd (sort_desc (combine ints (rows df))) |}.

(** What lines 65-66 and 68-69 store for one element of the [Ville] and
    of the [Reseau] column. *)
Definition ville_value (c : cell) : cell :=
  str_method title (fillna (py "Inconnue") c).

Definition reseau_value (c : cell) : cell :=
  str_method (replace (py "Metro") (py "Métro")) (fillna (py "Autre") c).

(* ================================================================= *)
(** ** The table of [plot_treemap_cities] *)

Definition pair_eq_dec (a b : cell * cell) : {a = b} + {a <> b}.
Proof.
  decide equality; apply cell_eq_dec.
Defined.

Definition pair_eqb (a b : cell * cell) : bool :=
  if pair_eq_dec a b then true else false.

(** The order of the keys of a group-by on two columns: by the first, then
    by the second. *)
Definition pair_leb (a b : cell * cell) : bool :=
  if cell_eqb (fst a) (fst b) then cell_leb (snd a) (snd b)
  else cell_leb (fst a) (fst b).

Fixpoint insert_pair (x : cell * cell) (l : list (cell * cell))
  : list (cell * cell) :=
  match l with
  | [] => [x]
  | y :: l' => if pair_leb x y then x :: l else y :: insert_pair x l'
  end.

Definition both_present (p : cell * cell) : bool :=
  negb (is_null (fst p)) && negb (is_null (snd p)).

(** The keys of [groupby(['Ville', 'Reseau'])]: the distinct pairs of which
    neither part is missing (a row with a missing key is in no group),
    sorted. *)
Definition group_pairs (keys : list (cell * cell)) : list (cell * cell) :=
  fold_right insert_pair [] (nodup pair_eq_dec (filter both_present keys)).

(** The values whose pair of keys is [k], and their sum. *)
Definition pair_values (k : cell * cell)
    (keyed_values : list (cell * cell * Z)) : list Z :=
  map snd (filter (fun kv => pair_eqb (fst kv) k) keyed_values).

Definition pair_sum (k : cell * cell) (keyed_values : list (cell * cell * Z))
  : Z :=
  sum (pair_values k keyed_values).

(** Line 122: [df.groupby(['Ville', 'Reseau'])['Trafic'].sum().reset_index()]. *)
Definition treemap_groups (df : DataFrame) : result DataFrame :=
  villes <- getitem df Ville ;;
  res <- getitem df Reseau ;;
  s <- getitem df Trafic ;;
  ints <- int_values s ;;
  let keys := combine villes res in
  Ok {| columns := [Ville; Reseau; Trafic];
        rows := map (fun k => [fst k; snd k;
                               Num (pair_sum k (combine keys ints))])
                    (group_pairs keys) |}.

(** Lines 122-123: the groups, of which the 30 of largest sum are kept. *)
Definition plot_treemap_cities (df : DataFrame) : result DataFrame :=
  grp <- treemap_groups df ;;
  largest 30 grp.

(* ================================================================= *)
(** ** [main]: from the file to the key figures *)

(** What the two multiselect widgets hand back: the user's choice among
    the options offered (for the first one, all of them until the user
    changes it). *)
Record choices := {
  choose_res : list cell -> list cell;
  choose_city : list cell -> list cell
}.

(** [sorted(values)].  Python cannot order a text and a number or missing
    value, so a list that mixes them raises; texts are ordered by code
    point, numbers by value.  (Where a missing value would go among
    numbers is not modelled: [load_data] leaves no number in [Ville].) *)
Definition sorted_values (l : list cell) : result (list cell) :=
  match l with
  | [] | [_] => Ok l
  | _ :: _ :: _ =>
    if existsb is_str l && negb (forallb is_str l) then Raise TypeError
    else Ok (fold_right insert_key [] l)
  end.

(** What [main] has computed when it gets to the charts: the options of
    the two widgets, the filtered view and the key figures. *)
Record dashboard := {
  res_options : list cell;
  cities : list cell;
  df_viz : DataFrame;
  figures : key_figures
}.

(** How far [main] gets: it stops at the message "Données introuvables",
    or it shows the key figures and goes on to the charts. *)
Inductive page :=
| NotFound
| Page (d : dashboard).

(** Lines 145-181: [main] up to the key figures.  From line 189 on it
    hands the view to the chart functions, whose tables are [plot_sunburst],
    [plot_top_bar], [plot_donut], [plot_treemap_cities] and
    [detailed_data]; what plotly makes of a table, which includes raising
    on one it does not accept, is outside this model, so an outcome [Page]
    says that the figures were shown, not that the charts were drawn. *)
Definition main (src : source) (ui : choices) : result page :=
  df <- load_data src ;;
  if empty df then Ok NotFound
  else
    res <- getitem df Reseau ;;
    let sel_res := choose_res ui (unique res) in
    villes <- getitem df Ville ;;
    city_options <- sorted_values (unique villes) ;;
    let sel_city := choose_city ui city_options in
    view <- filter_stage df sel_res sel_city ;;
    k <- kpis view ;;
    Ok (Page {| res_options := unique res;
                cities := city_options;
                df_viz := view;
                figures := k |}).

(* ================================================================= *)
(** ** Decimal digits *)

(** The number a sequence of decimal digits spells after [acc]. *)
Fixpoint uint_value (acc : N) (d : Decimal.uint) : N :=
  match d with
  | Decimal.Nil => acc
  | Decimal.D0 d' => uint_value (acc * 10 + 0) d'
  | Decimal.D1 d' => uint_value (acc * 10 + 1) d'
  | Decimal.D2 d' => uint_value (acc * 10 + 2) d'
  | Decimal.D3 d' => uint_value (acc * 10 + 3) d'
  | Decimal.D4 d' => uint_value (acc * 10 + 4) d'
  | Decimal.D5 d' => uint_value (acc * 10 + 5) d'
  | Decimal.D6 d' => uint_value (acc * 10 + 6) d'
  | Decimal.D7 d' => uint_value (acc * 10 + 7) d'
  | Decimal.D8 d' => uint_value (acc * 10 + 8) d'
  | Decimal.D9 d' => uint_value (acc * 10 + 9) d'
  end%N.

(** The characters of a sequence of decimal digits. *)
Definition uint_chars (d : Decimal.uint) : pystr :=
  map N_of_ascii (list_ascii_of_string (NilEmpty.string_of_uint d)).

(* ================================================================= *)
(** ** The text of the total *)

(** Digits in groups of three, from the units: on the reversed digits, a
    comma goes after every third digit that has a digit after it. *)
Fixpoint group_rev (l : pystr) : pystr :=
  match l with
  | a :: b :: c :: ((_ :: _) as r) => a :: b :: c :: 44%N :: group_rev r
  | _ => l
  end.

(** Line 173: [f"{total:,.0f}".replace(",", " ")].  The format goes through
    a float, which holds an integer exactly up to 2^53 in magnitude; beyond
    that the digits shown are not modelled. *)
Definition format_total (total : Z) : option pystr :=
  if Z.abs total <=? 2 ^ 53 then
    Some (replace (py ",") (py " ")
            ((if total <? 0 then py "-" else [])
               ++ rev (group_rev (rev (str_of_Z (Z.abs total))))))
  else None.

(* ================================================================= *)
(** * Properties *)

(** ** Lists *)

Section ListFacts.
Context {A B C : Type}.

Lemma find_app_first (p : A -> bool) (l1 l2 : list A) :
  find p (l1 ++ l2) =
  match find p l1 with
  | Some a => Some a
  | None => find p l2
  end.
Proof.
  induction l1 as [|a l1 IH]; simpl; [reflexivity|].
  destruct (p a); [reflexivity | exact IH].
Qed.

Lemma find_ext_in (p q : A -> bool) (l : list A) :
  (forall a, In a l -> p a = q a) -> find p l = find q l.
Proof.
  induction l as [|a l IH]; simpl; intros H; [reflexivity|].
  rewrite <- (H a (or_introl eq_refl)).
  destruct (p a); [reflexivity|].
  apply IH. intros b Hb. apply H. now right.
Qed.

Lemma find_map_fst (g : A -> B) (p : B -> bool) (l : list A) :
  find p (map g l) = option_map g (find (fun a => p (g a)) l).
Proof.
  induction l as [|a l IH]; simpl; [reflexivity|].
  destruct (p (g a)); [reflexivity | exact IH].
Qed.

Lemma Forall2_map_l (g : A -> B) (P : B -> C -> Prop) l bs :
  Forall2 P (map g l) bs -> Forall2 (fun a b => P (g a) b) l bs.
Proof.
  revert bs. induction l as [|a l IH]; simpl; intros bs H;
    inversion H; subst; constructor; auto.
Qed.

Lemma in_skipn n (l : list A) a : In a (skipn n l) -> In a l.
Proof.
  intros H. rewrite <- (firstn_skipn n l). apply in_or_app. now right.
Qed.

Lemma map_snd_combine (l1 : list A) (l2 : list B) :
  length l1 = length l2 -> map snd (combine l1 l2) = l2.
Proof.
  revert l2. induction l1 as [|a l1 IH]; intros [|b l2] H; simpl in *;
    try discriminate; [reflexivity|].
  f_equal. apply IH. lia.
Qed.

Lemma filter_all (p : A -> bool) l :
  Forall (fun a => p a = true) l -> filter p l = l.
Proof.
  induction 1 as [|a l Ha _ IH]; simpl; [reflexivity|].
  rewrite Ha, IH. reflexivity.
Qed.

Lemma subseq_nil_l (l : list A) : subseq [] l.
Proof.
  induction l; [apply subseq_nil | now apply subseq_skip].
Qed.

Lemma subseq_In (l1 l2 : list A) a : subseq l1 l2 -> In a l1 -> In a l2.
Proof.
  induction 1; simpl; intros Hin; auto.
  destruct Hin as [->|Hin]; auto.
Qed.

Lemma subseq_trans (l1 l2 l3 : list A) :
  subseq l1 l2 -> subseq l2 l3 -> subseq l1 l3.
Proof.
  intros H12 H23. revert l1 H12.
  induction H23; intros l0 H12.
  - exact H12.
  - constructor. now apply IHsubseq.
  - inversion H12; subst.
    + constructor. now apply IHsubseq.
    + apply subseq_keep. now apply IHsubseq.
Qed.

End ListFacts.

(** ** Texts and dicts *)

Lemma pystr_eqb_eq a b : pystr_eqb a b = true <-> a = b.
Proof.
  unfold pystr_eqb. destruct (list_eq_dec N.eq_dec a b); split; congruence.
Qed.

Lemma pystr_eqb_refl a : pystr_eqb a a = true.
Proof. now apply pystr_eqb_eq. Qed.

Lemma pystr_eqb_neq a b : pystr_eqb a b = false <-> a <> b.
Proof.
  unfold pystr_eqb. destruct (list_eq_dec N.eq_dec a b); split; congruence.
Qed.

Lemma pystr_eqb_sym a b : pystr_eqb a b = pystr_eqb b a.
Proof.
  destruct (pystr_eqb b a) eqn:E.
  - apply pystr_eqb_eq in E. subst. apply pystr_eqb_refl.
  - apply pystr_eqb_neq in E. apply pystr_eqb_neq. congruence.
Qed.

Lemma cell_eqb_eq a b : cell_eqb a b = true <-> a = b.
Proof.
  unfold cell_eqb. destruct (cell_eq_dec a b); split; congruence.
Qed.

Lemma dict_get_set d k v k' :
  dict_get (dict_set d k v) k' =
  if pystr_eqb k k' then Some v else dict_get d k'.
Proof.
  induction d as [|[k0 v0] d IH]; simpl.
  - reflexivity.
  - destruct (pystr_eqb k0 k) eqn:E0; simpl.
    + apply pystr_eqb_eq in E0. subst k0.
      destruct (pystr_eqb k k'); reflexivity.
    + destruct (pystr_eqb k0 k') eqn:E1.
      * apply pystr_eqb_eq in E1. subst k0.
        rewrite pystr_eqb_sym, E0. reflexivity.
      * exact IH.
Qed.

(** A key of a non-empty keyword is only found in a non-empty header. *)
Lemma contains_nil k : contains k [] = true -> k = [].
Proof.
  destruct k; simpl; [reflexivity | discriminate].
Qed.

Lemma get_col_nonempty cols keys h :
  Forall (fun k => k <> []) keys ->
  get_col cols keys = Some h -> h <> [].
Proof.
  intros Hk Hg. unfold get_col in Hg.
  apply find_some in Hg. destruct Hg as [_ Hex].
  apply existsb_exists in Hex. destruct Hex as [k [Hin Hc]].
  intros ->. apply contains_nil in Hc.
  rewrite Forall_forall in Hk. exact (Hk k Hin Hc).
Qed.

Lemma field_keys_nonempty :
  Forall (fun fk => Forall (fun k => k <> []) (snd fk)) field_keys.
Proof.
  repeat constructor; simpl; discriminate.
Qed.

(** The dict comprehension of line 56, one item at a time: each item with a
    usable header overwrites what an earlier item stored under it. *)
Lemma final_cols_fold (m : list (pystr * option pystr)) (d : dict) h :
  dict_get
    (fold_left
       (fun d kv =>
          match snd kv with
          | Some v => if truthy (Some v) then dict_set d v (fst kv) else d
          | None => d
          end) m d) h =
  match find (fun kv => truthy (snd kv) && option_pystr_eqb (snd kv) (Some h))
             (rev m) with
  | Some kv => Some (fst kv)
  | None => dict_get d h
  end.
Proof.
  revert d. induction m as [|[f v] m IH]; intros d; simpl.
  - reflexivity.
  - rewrite IH. clear IH.
    rewrite find_app_first.
    destruct (find _ (rev m)) as [kv|]; [reflexivity|].
    simpl. destruct v as [[|c v]|]; simpl; try reflexivity.
    rewrite dict_get_set.
    destruct (pystr_eqb (c :: v) h); reflexivity.
Qed.

(* ================================================================= *)
(** ** The header mapping *)

Lemma renamed_to_claimant (cols : list pystr) (h : pystr) :
  renamed_to cols h = last_claimant cols h.
Proof.
  unfold renamed_to, last_claimant, final_cols, mapping.
  rewrite final_cols_fold. simpl dict_get.
  rewrite <- map_rev, find_map_fst.
  rewrite (find_ext_in _ (claims cols h)).
  - destruct (find (claims cols h) (rev field_keys)); reflexivity.
  - intros fk Hin. apply in_rev in Hin. unfold claims. simpl.
    destruct (get_col cols (snd fk)) as [v|] eqn:Hg; [|reflexivity].
    assert (Hne : v <> []).
    { pose proof field_keys_nonempty as Hall.
      rewrite Forall_forall in Hall.
      exact (get_col_nonempty cols (Hall fk Hin) Hg). }
    destruct v; [congruence | reflexivity].
Qed.

(** C2, as amended.  A header is renamed to at most one canonical field,
    and when the scans of several fields select the same header it is the
    LAST of them in the order Reseau, Station, Trafic, Ville, Arr that
    keeps it: the dict of line 56 is keyed by header, so a later field
    overwrites an earlier one. *)
Theorem renamed_to_last_claimant (cols : list pystr) (h : pystr) :
  renamed_to cols h = last_claimant cols h
  /\ (forall f1 f2,
        renamed_to cols h = Some f1 -> renamed_to cols h = Some f2 ->
        f1 = f2).
Proof.
  split; [apply renamed_to_claimant | congruence].
Qed.

(** C2 as written fails: the single header [trafic_station] matches the
    keywords of Station and of Trafic and is selected by the scans of
    both; Station comes first in the order, and the header is renamed to
    Trafic. *)
Lemma first_field_does_not_keep_header :
  map fst (filter (matches (py "trafic_station")) field_keys)
  = [Station; Trafic]
  /\ first_claimant [py "trafic_station"] (py "trafic_station") = Some Station
  /\ renamed_to [py "trafic_station"] (py "trafic_station") = Some Trafic
  /\ ~ (forall cols h f,
           first_claimant cols h = Some f -> renamed_to cols h = Some f).
Proof.
  split; [reflexivity|]. split; [reflexivity|]. split; [reflexivity|].
  intros H.
  specialize (H [py "trafic_station"] (py "trafic_station") Station eq_refl).
  vm_compute in H. discriminate.
Qed.

(* ================================================================= *)
(** ** The loader *)

(** C3.  The row of the scenario, read under its four headers, comes out of
    [load_data] as Reseau "Métro", Station "Nation", Trafic 1200000,
    Ville "Paris". *)
Theorem load_data_nation_row :
  load_data
    {| path_exists := true;
       read_csv :=
         Some {| columns := [py "Réseau"; py "Station";
                             py "Trafic (Validations)"; py "Ville"];
                 rows := [[Str (py "Metro"); Str (py "Nation");
                           Str (py "1 200 000"); Str (py "paris")]] |} |}
  = Ok {| columns := [Reseau; Station; Trafic; Ville];
          rows := [[Str (py "Métro"); Str (py "Nation");
                    Num 1200000; Str (py "Paris")]] |}.
Proof. vm_compute. reflexivity. Qed.

(** C4.  When the path does not exist, or [read_csv] raises, [load_data]
    returns (it does not raise) the frame with no rows and no columns. *)
Theorem load_data_missing_or_unreadable (src : source) :
  path_exists src = false \/ read_csv src = None ->
  load_data src = Ok empty_frame
  /\ rows empty_frame = [] /\ columns empty_frame = [].
Proof.
  intros H. split; [|split; reflexivity].
  unfold load_data.
  destruct (path_exists src); simpl; [|reflexivity].
  destruct H as [H|H]; [discriminate|]. rewrite H. reflexivity.
Qed.

Lemma load_data_missing_or_unreadable_witness :
  load_data {| path_exists := true; read_csv := None |} = Ok empty_frame
  /\ rows empty_frame = [] /\ columns empty_frame = [].
Proof.
  apply (load_data_missing_or_unreadable
           {| path_exists := true; read_csv := None |}).
  right. reflexivity.
Defined.

(* ================================================================= *)
(** ** Columns of a frame *)

Lemma bind_ok {A B} (r : result A) (k : A -> result B) b :
  bind r k = Ok b -> exists a, r = Ok a /\ k a = Ok b.
Proof.
  destruct r as [a|e]; simpl; [|discriminate]. intros H. now exists a.
Qed.

Ltac bind_inv H :=
  let a := fresh "a" in
  let Ha := fresh "Ha" in
  apply bind_ok in H; destruct H as [a [Ha H]].

Lemma traverse_Forall2 {A B} (f : A -> result B) l bs :
  traverse f l = Ok bs -> Forall2 (fun a b => f a = Ok b) l bs.
Proof.
  revert bs. induction l as [|a l IH]; simpl; intros bs H.
  - injection H as <-. constructor.
  - bind_inv H. bind_inv H. injection H as <-.
    constructor; [assumption | now apply IH].
Qed.

Lemma traverse_length {A B} (f : A -> result B) l bs :
  traverse f l = Ok bs -> length bs = length l.
Proof.
  intros H. apply traverse_Forall2 in H.
  symmetry. eapply Forall2_length; eassumption.
Qed.

Lemma traverse_total {A B} (f : A -> result B) l :
  Forall (fun a => exists b, f a = Ok b) l -> exists bs, traverse f l = Ok bs.
Proof.
  induction 1 as [|a l [b Hb] _ [bs Hbs]]; simpl.
  - now exists [].
  - rewrite Hb, Hbs. simpl. now exists (b :: bs).
Qed.

Lemma str_accessor_ok s s' : str_accessor s = Ok s' -> s' = s.
Proof.
  unfold str_accessor. destruct s as [|c s]; [congruence|].
  destruct (existsb is_str (c :: s)); congruence.
Qed.

Lemma series_length df i : length (series df i) = length (rows df).
Proof. unfold series. apply length_map. Qed.

Lemma assign_columns df i s : columns (assign df i s) = columns df.
Proof. reflexivity. Qed.

Lemma assign_rows_length df i s :
  length s = length (rows df) ->
  length (rows (assign df i s)) = length (rows df).
Proof.
  intros H. unfold assign. simpl.
  rewrite length_map, length_combine. lia.
Qed.

Lemma set_nth_length i v r : length (set_nth i v r) = length r.
Proof.
  revert i. induction r as [|c r IH]; intros [|i]; simpl; auto.
Qed.

Lemma nth_set_nth_same i v r :
  (i < length r)%nat -> nth i (set_nth i v r) NaN = v.
Proof.
  revert i. induction r as [|c r IH]; intros [|i]; simpl; intros H;
    try lia; [reflexivity | apply IH; lia].
Qed.

Lemma nth_set_nth_other i j v r :
  i <> j -> nth j (set_nth i v r) NaN = nth j r NaN.
Proof.
  revert i j. induction r as [|c r IH]; intros [|i] [|j] H; simpl;
    try reflexivity; try congruence.
  apply IH. congruence.
Qed.

Lemma assign_rectangular df i s : rectangular df -> rectangular (assign df i s).
Proof.
  unfold rectangular, assign. simpl. intros H.
  apply Forall_forall. intros r Hr.
  apply in_map_iff in Hr. destruct Hr as [[r0 v] [<- Hin]]. simpl.
  rewrite set_nth_length. apply in_combine_l in Hin.
  rewrite Forall_forall in H. now apply H.
Qed.

Lemma series_assign_same df i s :
  rectangular df -> (i < length (columns df))%nat ->
  length s = length (rows df) ->
  series (assign df i s) i = s.
Proof.
  unfold rectangular, series, assign. simpl.
  generalize (rows df) as rs. intros rs Hrect Hi. revert s.
  induction rs as [|r rs IH]; intros [|v s] Hlen; simpl in *;
    try discriminate; [reflexivity|].
  inversion Hrect as [|? ? Hr Hrs]; subst.
  rewrite nth_set_nth_same by lia.
  f_equal. apply IH; [assumption | lia].
Qed.

Lemma series_assign_other df i j s :
  i <> j -> length s = length (rows df) ->
  series (assign df i s) j = series df j.
Proof.
  unfold series, assign. simpl.
  generalize (rows df) as rs. intros rs Hij. revert s.
  induction rs as [|r rs IH]; intros [|v s] Hlen; simpl in *;
    try discriminate; [reflexivity|].
  rewrite nth_set_nth_other by assumption.
  f_equal. apply IH. lia.
Qed.

Lemma positions_spec name cols k i :
  In i (positions name cols k) ->
  (k <= i)%nat /\ nth_error cols (i - k) = Some name.
Proof.
  revert k. induction cols as [|c cols IH]; simpl; intros k H; [easy|].
  destruct (pystr_eqb name c) eqn:E.
  - destruct H as [<-|H].
    + apply pystr_eqb_eq in E. subst c.
      rewrite Nat.sub_diag. simpl. split; [lia | reflexivity].
    + apply IH in H. destruct H as [Hk Hn]. split; [lia|].
      replace (i - k)%nat with (S (i - S k)) by lia. exact Hn.
  - apply IH in H. destruct H as [Hk Hn]. split; [lia|].
    replace (i - k)%nat with (S (i - S k)) by lia. exact Hn.
Qed.

Lemma positions_lt name cols i :
  In i (positions name cols 0) -> (i < length cols)%nat.
Proof.
  intros H. apply positions_spec in H. destruct H as [_ H].
  rewrite Nat.sub_0_r in H. apply nth_error_Some. congruence.
Qed.

Lemma positions_distinct n1 n2 cols i j :
  n1 <> n2 ->
  In i (positions n1 cols 0) -> In j (positions n2 cols 0) -> i <> j.
Proof.
  intros Hn Hi Hj ->.
  apply positions_spec in Hi. apply positions_spec in Hj.
  destruct Hi as [_ Hi]. destruct Hj as [_ Hj]. congruence.
Qed.

Lemma has_column_positions name df :
  has_column name df = false -> positions name (columns df) 0 = [].
Proof.
  unfold has_column. generalize 0%nat. generalize (columns df) as cols.
  induction cols as [|c cols IH]; simpl; intros k H; [reflexivity|].
  apply orb_false_iff in H. destruct H as [H1 H2].
  rewrite H1. now apply IH.
Qed.

(* ================================================================= *)
(** ** The cleaning of the fields *)

Lemma clean_trafic_ok df df' :
  clean_trafic df = Ok df' ->
  (has_column Trafic df = false /\ df' = df)
  \/ exists i ints,
       positions Trafic (columns df) 0 = [i]
       /\ df' = assign df i (map Num ints)
       /\ Forall2 (fun c z => trafic_value c = Ok z) (series df i) ints.
Proof.
  unfold clean_trafic. intros H.
  destruct (has_column Trafic df); [right | left; split; congruence].
  destruct (positions Trafic (columns df) 0) as [|i [|? ?]];
    try discriminate.
  bind_inv H. apply str_accessor_ok in Ha. subst a.
  bind_inv H. injection H as <-.
  exists i, a. split; [reflexivity|]. split; [reflexivity|].
  apply traverse_Forall2 in Ha.
  rewrite map_map in Ha. apply Forall2_map_l in Ha. exact Ha.
Qed.

Lemma clean_ville_ok df df' :
  clean_ville df = Ok df' ->
  (has_column Ville df = false /\ df' = df)
  \/ exists j s,
       positions Ville (columns df) 0 = [j]
       /\ df' = assign df j s /\ length s = length (rows df).
Proof.
  unfold clean_ville. intros H.
  destruct (has_column Ville df); [right | left; split; congruence].
  destruct (positions Ville (columns df) 0) as [|j [|? ?]]; try discriminate.
  bind_inv H. apply str_accessor_ok in Ha. subst a. injection H as <-.
  eexists j, _. split; [reflexivity|]. split; [reflexivity|].
  now rewrite !length_map, series_length.
Qed.

Lemma clean_reseau_ok df df' :
  clean_reseau df = Ok df' ->
  (has_column Reseau df = false /\ df' = df)
  \/ exists j s,
       positions Reseau (columns df) 0 = [j]
       /\ df' = assign df j s /\ length s = length (rows df).
Proof.
  unfold clean_reseau. intros H.
  destruct (has_column Reseau df); [right | left; split; congruence].
  destruct (positions Reseau (columns df) 0) as [|j [|? ?]]; try discriminate.
  bind_inv H. apply str_accessor_ok in Ha. subst a. injection H as <-.
  eexists j, _. split; [reflexivity|]. split; [reflexivity|].
  now rewrite !length_map, series_length.
Qed.

(** Only a text that starts with a minus sign parses to a negative
    number. *)
Lemma scan_sign_negative s s1 :
  scan_sign s = (true, s1) -> startswith (py "-") s = true.
Proof.
  unfold scan_sign. destruct s as [|c s]; [discriminate|].
  destruct (c =? 45)%N eqn:E.
  - intros _. apply N.eqb_eq in E. subst c. reflexivity.
  - destruct (c =? 43)%N; discriminate.
Qed.

(** *** The range of [int64] and of [float64] *)

Lemma wrap64_small z : - 2 ^ 63 <= z < 2 ^ 63 -> wrap64 z = z.
Proof.
  intros H. unfold wrap64. rewrite Z.mod_small by lia. lia.
Qed.

Lemma wrap64_add_l a b : wrap64 (wrap64 a + b) = wrap64 (a + b).
Proof.
  unfold wrap64. f_equal.
  replace ((a + 2 ^ 63) mod 2 ^ 64 - 2 ^ 63 + b + 2 ^ 63)
    with ((a + 2 ^ 63) mod 2 ^ 64 + b) by lia.
  rewrite Zplus_mod_idemp_l. f_equal. lia.
Qed.

Lemma float64_max_large : 2 ^ 63 <= float64_max.
Proof. vm_compute. discriminate. Qed.

(** *** Integers written in full *)

Lemma scan_digits_all ds : forall acc n,
  forallb is_digit ds = true ->
  exists v,
    scan_digits acc n ds
    = ((acc * 10 ^ N.of_nat (length ds) + v)%N, (n + length ds)%nat, [])
    /\ (v < 10 ^ N.of_nat (length ds))%N.
Proof.
  induction ds as [|c ds IH]; intros acc n H.
  - exists 0%N. simpl. rewrite N.mul_1_r, N.add_0_r, Nat.add_0_r.
    split; [reflexivity | lia].
  - cbn [forallb] in H. apply andb_true_iff in H. destruct H as [Hc Hds].
    cbn [scan_digits]. rewrite Hc.
    destruct (IH (acc * 10 + (c - 48))%N (S n) Hds) as [v [Hv Hlt]].
    exists ((c - 48) * 10 ^ N.of_nat (length ds) + v)%N.
    cbn [length]. rewrite Nat2N.inj_succ, N.pow_succ_r'.
    split.
    + rewrite Hv. f_equal. f_equal; [ring | lia].
    + unfold is_digit in Hc. rewrite andb_true_iff, !N.leb_le in Hc. nia.
Qed.

Lemma plain_integer_parse t :
  plain_integer t = true ->
  exists neg m,
    parse_decimal t = Some (NDec neg m 0)
    /\ Z.of_N m < 10 ^ 15
    /\ (neg = true -> startswith (py "-") t = true).
Proof.
  unfold plain_integer, parse_decimal.
  destruct (scan_sign t) as [neg ds] eqn:Hs. intros H.
  rewrite !andb_true_iff in H. destruct H as [[Hd H1] H15].
  apply Nat.leb_le in H1. apply Nat.leb_le in H15.
  destruct (scan_digits_all ds 0 0 Hd) as [v [-> Hv]].
  cbn [Nat.add].
  destruct (length ds) as [|k] eqn:Hk; [lia|].
  cbn [Nat.add Nat.eqb]. rewrite N.mul_0_l, N.add_0_l.
  exists neg, v. split; [reflexivity|]. split.
  - assert (Hp : (10 ^ N.of_nat (S k) <= 10 ^ 15)%N)
      by (apply N.pow_le_mono_r; lia).
    change (10 ^ 15) with (Z.of_N (10 ^ 15)%N). lia.
  - intros ->. eapply scan_sign_negative; eassumption.
Qed.

(** What lines 61-62 store for an element that both number types hold
    exactly: the integer written, or 0 for what is no number; the cast
    fails on the name of an infinity. *)
Lemma exact_trafic_value c :
  exact_trafic c = true ->
  (exists z,
     trafic_value c = Ok z
     /\ - 10 ^ 15 < z < 10 ^ 15
     /\ (z < 0 ->
         startswith (py "-") (remove_whitespace (astype_str c)) = true)
     /\ (plain_integer (remove_whitespace (astype_str c)) = false -> z = 0))
  \/ (trafic_value c = Raise IntCastingNaNError
      /\ In (lower (remove_whitespace (astype_str c))) infinity_names).
Proof.
  unfold exact_trafic, trafic_value.
  set (t := remove_whitespace (astype_str c)).
  destruct (to_numeric t) as [|b|neg m e] eqn:E; intros H.
  - left. exists 0. split; [reflexivity|]. split; [lia|].
    split; [lia | reflexivity].
  - right. split; [reflexivity|].
    apply existsb_exists in H. destruct H as [x [Hx He]].
    apply pystr_eqb_eq in He. now subst x.
  - left. destruct (plain_integer_parse t H) as [neg' [m' [Hp [Hm Hneg]]]].
    unfold to_numeric in E. rewrite Hp in E.
    destruct (float64_max <? magnitude m' 0); [discriminate|].
    injection E as -> -> <-.
    cbn [fillna_zero astype_int]. unfold magnitude.
    cbn [Z.leb Z.compare Z.pow]. rewrite Z.mul_1_r.
    exists (if neg then - Z.of_N m else Z.of_N m).
    assert (Hr : - 10 ^ 15 < (if neg then - Z.of_N m else Z.of_N m) < 10 ^ 15)
      by (destruct neg; lia).
    split; [f_equal; apply wrap64_small; lia|]. split; [exact Hr|]. split.
    + intros Hz. apply Hneg. destruct neg; [reflexivity | lia].
    + congruence.
Qed.


Lemma canonical_labels_distinct :
  Trafic <> Ville /\ Trafic <> Reseau /\ Ville <> Reseau.
Proof. repeat split; discriminate. Qed.




Lemma field_normalizer_shape df df' :
  field_normalizer df = Ok df' ->
  columns df' = columns df /\ length (rows df') = length (rows df).
Proof.
  unfold field_normalizer. intros H.
  bind_inv H. rename a into df1. bind_inv H. rename a into df2.
  assert (H1 : columns df1 = columns df
               /\ length (rows df1) = length (rows df)).
  { apply clean_trafic_ok in Ha.
    destruct Ha as [[_ ->]|[i [ints [_ [-> Hval]]]]]; [now split|].
    split; [reflexivity|]. apply assign_rows_length.
    rewrite length_map, <- (series_length df i).
    symmetry. eapply Forall2_length; eassumption. }
  assert (H2 : columns df2 = columns df1
               /\ length (rows df2) = length (rows df1)).
  { apply clean_ville_ok in Ha0.
    destruct Ha0 as [[_ ->]|[j [s [_ [-> Hs]]]]]; [now split|].
    split; [reflexivity | now apply assign_rows_length]. }
  assert (H3 : columns df' = columns df2
               /\ length (rows df') = length (rows df2)).
  { apply clean_reseau_ok in H.
    destruct H as [[_ ->]|[j [s [_ [-> Hs]]]]]; [now split|].
    split; [reflexivity | now apply assign_rows_length]. }
  destruct H1, H2, H3. split; congruence.
Qed.

(** *** When the cleaning returns *)

Lemma positions_absent name cols k :
  ~ In name cols -> positions name cols k = [].
Proof.
  revert k. induction cols as [|c cols IH]; simpl; intros k H; [reflexivity|].
  destruct (pystr_eqb name c) eqn:E.
  - apply pystr_eqb_eq in E. subst c. exfalso. apply H. now left.
  - apply IH. intros Hin. apply H. now right.
Qed.

Lemma positions_unique name cols k :
  NoDup cols -> In name cols -> exists i, positions name cols k = [i].
Proof.
  revert k. induction cols as [|c cols IH]; simpl; intros k Hnd Hin; [easy|].
  inversion Hnd as [|? ? Hc Hnd']; subst.
  destruct (pystr_eqb name c) eqn:E.
  - apply pystr_eqb_eq in E. subst c.
    rewrite positions_absent by assumption. now exists k.
  - destruct Hin as [->|Hin]; [now rewrite pystr_eqb_refl in E|].
    now apply IH.
Qed.

Lemma has_column_In name df :
  has_column name df = true -> In name (columns df).
Proof.
  unfold has_column. intros H. apply existsb_exists in H.
  destruct H as [c [Hin Hc]]. apply pystr_eqb_eq in Hc. now subst.
Qed.

Lemma str_accessor_texts s :
  Forall (fun c => is_str c = true) s -> str_accessor s = Ok s.
Proof.
  intros H. destruct s as [|c s]; [reflexivity|].
  inversion H as [|? ? Hc _]; subst. simpl. now rewrite Hc.
Qed.

Lemma fillna_texts v s :
  Forall (fun c => is_num c = false) s ->
  Forall (fun c => is_str c = true) (map (fillna v) s).
Proof.
  intros H. apply Forall_map. eapply Forall_impl; [|exact H].
  intros [| |]; simpl; congruence.
Qed.

Lemma finite_trafic_value c :
  finite_trafic c = true -> exists z, trafic_value c = Ok z.
Proof.
  unfold finite_trafic, trafic_value.
  destruct (to_numeric _) as [| |neg m e]; cbn [fillna_zero astype_int];
    try discriminate; eauto.
Qed.

Lemma clean_trafic_returns df :
  NoDup (columns df) ->
  (forall i, In i (positions Trafic (columns df) 0) ->
             Forall (fun c => finite_trafic c = true) (series df i)) ->
  exists df', clean_trafic df = Ok df'.
Proof.
  intros Hnd Hfin. unfold clean_trafic.
  destruct (has_column Trafic df) eqn:Hc; [|eauto].
  destruct (@positions_unique _ _ 0%nat Hnd (@has_column_In _ _ Hc)) as [i Hi].
  rewrite Hi. specialize (Hfin i). rewrite Hi in Hfin.
  specialize (Hfin (or_introl eq_refl)).
  rewrite str_accessor_texts
    by (apply Forall_map, Forall_forall; reflexivity).
  simpl.
  destruct (traverse_total
              (fun c => astype_int (fillna_zero (to_numeric_cell c)))
              (l := map (str_method remove_whitespace)
                        (map (fun c => Str (astype_str c)) (series df i))))
    as [ints Hints].
  - rewrite map_map. apply Forall_map.
    eapply Forall_impl; [|exact Hfin].
    intros c Hcf. apply finite_trafic_value in Hcf. exact Hcf.
  - rewrite Hints. simpl. eauto.
Qed.

Lemma clean_ville_returns df :
  NoDup (columns df) ->
  (forall i, In i (positions Ville (columns df) 0) ->
             Forall (fun c => is_num c = false) (series df i)) ->
  exists df', clean_ville df = Ok df'.
Proof.
  intros Hnd Htxt. unfold clean_ville.
  destruct (has_column Ville df) eqn:Hc; [|eauto].
  destruct (@positions_unique _ _ 0%nat Hnd (@has_column_In _ _ Hc)) as [i Hi].
  rewrite Hi. specialize (Htxt i). rewrite Hi in Htxt.
  specialize (Htxt (or_introl eq_refl)).
  rewrite str_accessor_texts by now apply fillna_texts.
  simpl. eauto.
Qed.

Lemma clean_reseau_returns df :
  NoDup (columns df) ->
  (forall i, In i (positions Reseau (columns df) 0) ->
             Forall (fun c => is_num c = false) (series df i)) ->
  exists df', clean_reseau df = Ok df'.
Proof.
  intros Hnd Htxt. unfold clean_reseau.
  destruct (has_column Reseau df) eqn:Hc; [|eauto].
  destruct (@positions_unique _ _ 0%nat Hnd (@has_column_In _ _ Hc)) as [i Hi].
  rewrite Hi. specialize (Htxt i). rewrite Hi in Htxt.
  specialize (Htxt (or_introl eq_refl)).
  rewrite str_accessor_texts by now apply fillna_texts.
  simpl. eauto.
Qed.

(** A cleaning step that rewrites the column of one label leaves the
    columns of the other labels as they are. *)
Lemma series_after_step df df' n1 n2 i :
  n1 <> n2 ->
  (df' = df
   \/ exists j s, positions n1 (columns df) 0 = [j]
                  /\ df' = assign df j s /\ length s = length (rows df)) ->
  In i (positions n2 (columns df) 0) ->
  columns df' = columns df /\ series df' i = series df i.
Proof.
  intros Hn [->|[j [s [Hj [-> Hs]]]]] Hi; [now split|].
  split; [reflexivity|]. apply series_assign_other; [|assumption].
  apply (positions_distinct (columns df) Hn); [|assumption].
  rewrite Hj. now left.
Qed.

Lemma clean_trafic_step df df' :
  clean_trafic df = Ok df' ->
  df' = df
  \/ exists j s, positions Trafic (columns df) 0 = [j]
                 /\ df' = assign df j s /\ length s = length (rows df).
Proof.
  intros H. apply clean_trafic_ok in H.
  destruct H as [[_ ->]|[i [ints [Hpos [-> Hval]]]]]; [now left|].
  right. exists i, (map Num ints). repeat split; try assumption.
  rewrite length_map, <- (series_length df i).
  symmetry. eapply Forall2_length; eassumption.
Qed.

Lemma clean_ville_step df df' :
  clean_ville df = Ok df' ->
  df' = df
  \/ exists j s, positions Ville (columns df) 0 = [j]
                 /\ df' = assign df j s /\ length s = length (rows df).
Proof.
  intros H. apply clean_ville_ok in H.
  destruct H as [[_ ->]|H]; [now left | now right].
Qed.

Lemma field_normalizer_returns df :
  cleanable df -> exists df', field_normalizer df = Ok df'.
Proof.
  intros [Hnd [Hfin [Hville Hres]]].
  destruct canonical_labels_distinct as [HTV [HTR HVR]].
  unfold field_normalizer.
  assert (Hfin' : forall i, In i (positions Trafic (columns df) 0) ->
                    Forall (fun c => finite_trafic c = true) (series df i)).
  { intros i Hi. eapply Forall_impl; [|exact (Hfin i Hi)]. now intros c [_ Hc]. }
  destruct (@clean_trafic_returns df Hnd Hfin') as [df1 H1]. rewrite H1. simpl.
  pose proof (@clean_trafic_step _ _ H1) as S1.
  assert (C1 : columns df1 = columns df).
  { destruct S1 as [->|[j [s [_ [-> _]]]]]; reflexivity. }
  destruct (@clean_ville_returns df1) as [df2 H2].
  { now rewrite C1. }
  { rewrite C1. intros i Hi.
    destruct (@series_after_step _ _ Trafic Ville i HTV S1 Hi) as [_ ->]. auto. }
  rewrite H2. simpl.
  pose proof (@clean_ville_step _ _ H2) as S2.
  assert (C2 : columns df2 = columns df1).
  { destruct S2 as [->|[j [s [_ [-> _]]]]]; reflexivity. }
  apply clean_reseau_returns.
  - now rewrite C2, C1.
  - rewrite C2, C1. intros i Hi.
    assert (Hi1 : In i (positions Reseau (columns df1) 0)) by now rewrite C1.
    destruct (@series_after_step _ _ Ville Reseau i HVR S2 Hi1) as [_ ->].
    destruct (@series_after_step _ _ Trafic Reseau i HTR S1 Hi) as [_ ->]. auto.
Qed.

(** C9.  When the file was read, the table [load_data] returns has exactly
    the rows of the frame read from the file, in number: cleaning the
    headers, renaming and cleaning the fields replace values and neither
    drop nor add a row.  And [load_data] does return a table whenever the
    headers of the file are made of characters below U+0100 and the
    renamed frame repeats no label, holds in [Trafic] only integers written
    in full (an optional sign and at most fifteen digits, white space
    apart) and texts that are no number at all, and holds no number in
    [Ville] and [Reseau]. *)
Theorem load_data_row_count (src : source) (raw : DataFrame) :
  path_exists src = true ->
  read_csv src = Some raw ->
  (forall df, load_data src = Ok df ->
              length (rows df) = length (rows raw))
  /\ (Forall (fun h => forallb latin1 h = true) (columns raw) ->
      cleanable (rename_headers raw) ->
      exists df, load_data src = Ok df).
Proof.
  intros He Hr. unfold load_data. rewrite He, Hr. simpl. split.
  - intros df H. apply field_normalizer_shape in H.
    destruct H as [_ H]. exact H.
  - intros _. apply field_normalizer_returns.
Qed.

(* ================================================================= *)
(** ** The filter *)

Lemma select_rows_subseq rs mask : subseq (select_rows rs mask) rs.
Proof.
  revert mask. induction rs as [|r rs IH]; intros [|b mask]; simpl;
    try apply subseq_nil_l.
  destruct b; [apply subseq_keep | apply subseq_skip]; apply IH.
Qed.

(** A row kept by the mask [values.isin(allowed)] over the column at
    position [i] has an allowed value there. *)
Lemma select_rows_isin i rs allowed r :
  In r (select_rows rs (isin (map (fun r => nth i r NaN) rs) allowed)) ->
  In (nth i r NaN) allowed.
Proof.
  induction rs as [|r0 rs IH]; simpl; [easy|].
  destruct (existsb (cell_eqb (nth i r0 NaN)) allowed) eqn:E; [|exact IH].
  intros [<-|Hin]; [|now apply IH].
  apply existsb_exists in E. destruct E as [c [Hc Heq]].
  apply cell_eqb_eq in Heq. now rewrite Heq.
Qed.

Lemma getitem_ok df name s :
  getitem df name = Ok s ->
  exists i, positions name (columns df) 0 = [i] /\ s = series df i.
Proof.
  unfold getitem.
  destruct (positions name (columns df) 0) as [|i [|? ?]]; try discriminate.
  intros H. injection H as <-. now exists i.
Qed.

(** C5.  Every row of the filter's output has its Reseau value in the
    network allow-list and, when the city allow-list is not empty, its
    Ville value in the city allow-list; the output has the columns of the
    input and its rows are a subsequence of the input's rows: the order is
    kept and no row is changed. *)
Theorem filter_stage_correct
    (df : DataFrame) (sel_res sel_city : list cell) (out : DataFrame) :
  filter_stage df sel_res sel_city = Ok out ->
  columns out = columns df
  /\ subseq (rows out) (rows df)
  /\ (exists i, positions Reseau (columns df) 0 = [i]
                /\ forall r, In r (rows out) -> In (nth i r NaN) sel_res)
  /\ (sel_city <> [] ->
      exists j, positions Ville (columns df) 0 = [j]
                /\ forall r, In r (rows out) -> In (nth j r NaN) sel_city).
Proof.
  unfold filter_stage. intros H. bind_inv H.
  apply getitem_ok in Ha. destruct Ha as [i [Hi ->]].
  set (df_viz := select df (isin (series df i) sel_res)) in *.
  assert (Hsub : subseq (rows df_viz) (rows df))
    by apply select_rows_subseq.
  assert (Hres : forall r, In r (rows df_viz) -> In (nth i r NaN) sel_res).
  { intros r Hr. unfold df_viz, select, series in Hr. simpl in Hr.
    now apply select_rows_isin in Hr. }
  destruct sel_city as [|c sel_city].
  - injection H as <-. repeat split; try assumption; [eauto | congruence].
  - bind_inv H. apply getitem_ok in Ha. destruct Ha as [j [Hj ->]].
    injection H as <-. simpl.
    assert (Hsub2 : subseq (select_rows (rows df_viz)
                              (isin (series df_viz j) (c :: sel_city)))
                           (rows df_viz))
      by apply select_rows_subseq.
    split; [reflexivity|]. split; [eapply subseq_trans; eassumption|].
    split.
    + exists i. split; [assumption|]. intros r Hr.
      apply Hres. eapply subseq_In; eassumption.
    + intros _. exists j. split; [exact Hj|]. intros r Hr.
      unfold series in Hr. now apply select_rows_isin in Hr.
Qed.

Lemma filter_stage_correct_witness :
  let df := {| columns := [Reseau; Station; Trafic; Ville];
               rows := [[Str (py "Métro"); Str (py "Nation");
                         Num 1200000; Str (py "Paris")];
                        [Str (py "RER"); Str (py "La Défense");
                         Num 900000; Str (py "Puteaux")];
                        [Str (py "Métro"); Str (py "Mairie de Montreuil");
                         Num 500000; Str (py "Montreuil")]] |} in
  let out := {| columns := [Reseau; Station; Trafic; Ville];
                rows := [[Str (py "Métro"); Str (py "Mairie de Montreuil");
                          Num 500000; Str (py "Montreuil")]] |} in
  let sel_res := [Str (py "Métro")] in
  let sel_city := [Str (py "Montreuil"); Str (py "Puteaux")] in
  filter_stage df sel_res sel_city = Ok out
  /\ columns out = columns df
  /\ subseq (rows out) (rows df)
  /\ (exists i, positions Reseau (columns df) 0 = [i]
                /\ forall r, In r (rows out) -> In (nth i r NaN) sel_res)
  /\ (sel_city <> [] ->
      exists j, positions Ville (columns df) 0 = [j]
                /\ forall r, In r (rows out) -> In (nth j r NaN) sel_city).
Proof.
  intros df out sel_res sel_city.
  assert (H : filter_stage df sel_res sel_city = Ok out) by reflexivity.
  split; [exact H|]. exact (filter_stage_correct df sel_res sel_city H).
Defined.

(** The filter returns on every table that has one [Reseau] and one [Ville]
    column. *)
Lemma filter_stage_returns df sel_res sel_city i j :
  positions Reseau (columns df) 0 = [i] ->
  positions Ville (columns df) 0 = [j] ->
  exists out, filter_stage df sel_res sel_city = Ok out.
Proof.
  intros Hi Hj. unfold filter_stage, getitem. rewrite Hi. simpl.
  destruct sel_city; [eauto|]. rewrite Hj. simpl. eauto.
Qed.

(* ================================================================= *)
(** ** The key figures *)

(** C10.  On a filtered view without rows the Top Station figure is the
    placeholder "-": the lookup of the row of largest Trafic, which has no
    answer on an empty column, is not evaluated.  The four figures are then
    produced whenever the view has its [Trafic] column, and the only way
    they can fail is the lookup of that column itself. *)
Theorem top_station_placeholder (df_viz : DataFrame) :
  rows df_viz = [] ->
  top_station_of df_viz = Ok (Str (py "-"))
  /\ idxmax [] = Raise ValueError
  /\ match getitem df_viz Trafic with
     | Ok _ =>
       kpis df_viz = Ok {| total := 0; stations := 0;
                           top_station := Str (py "-"); mean := None |}
     | Raise e => kpis df_viz = Raise e
     end.
Proof.
  intros Hrows.
  assert (Hempty : empty df_viz = true).
  { unfold empty. rewrite Hrows. destruct (columns df_viz); reflexivity. }
  assert (Htop : top_station_of df_viz = Ok (Str (py "-"))).
  { unfold top_station_of. rewrite Hempty. reflexivity. }
  split; [exact Htop|]. split; [reflexivity|].
  unfold kpis.
  destruct (getitem df_viz Trafic) as [s|e] eqn:Hg; [|reflexivity].
  apply getitem_ok in Hg. destruct Hg as [i [_ ->]].
  unfold series. rewrite Hrows. simpl. rewrite Htop. reflexivity.
Qed.

Lemma top_station_placeholder_witness :
  let df_viz := {| columns := [Reseau; Station; Trafic; Ville];
                   rows := [] |} in
  rows df_viz = []
  /\ top_station_of df_viz = Ok (Str (py "-"))
  /\ kpis df_viz = Ok {| total := 0; stations := 0;
                         top_station := Str (py "-"); mean := None |}.
Proof.
  intros df_viz.
  destruct (top_station_placeholder df_viz eq_refl) as [Htop [_ Hk]].
  split; [reflexivity|]. split; [exact Htop | exact Hk].
Defined.

(* ================================================================= *)
(** ** The rows of largest Trafic *)

Lemma int_values_nums ints : int_values (map Num ints) = Ok ints.
Proof.
  unfold int_values. induction ints as [|z ints IH]; simpl; [reflexivity|].
  rewrite IH. reflexivity.
Qed.

Lemma insert_desc_perm x l : Permutation (insert_desc x l) (x :: l).
Proof.
  induction l as [|y l IH]; simpl; [reflexivity|].
  destruct (fst y <=? fst x); [reflexivity|].
  rewrite IH. apply perm_swap.
Qed.

Lemma sort_desc_perm l : Permutation (sort_desc l) l.
Proof.
  induction l as [|x l IH]; simpl; [reflexivity|].
  rewrite insert_desc_perm. now constructor.
Qed.

Lemma insert_desc_descending x l :
  descending l -> descending (insert_desc x l).
Proof.
  induction 1 as [|y l Hy Hl IH]; simpl.
  - constructor; [easy | constructor].
  - destruct (fst y <=? fst x) eqn:E.
    + apply Z.leb_le in E. constructor; [|now constructor].
      intros z [<-|Hz]; [assumption|]. specialize (Hy z Hz). lia.
    + apply Z.leb_gt in E. constructor; [|assumption].
      intros z Hz.
      apply (Permutation_in _ (insert_desc_perm x l)) in Hz.
      destruct Hz as [<-|Hz]; [lia | now apply Hy].
Qed.

Lemma sort_desc_descending l : descending (sort_desc l).
Proof.
  induction l as [|x l IH]; simpl;
    [constructor | now apply insert_desc_descending].
Qed.

Lemma descending_split n l a b :
  descending l -> In a (firstn n l) -> In b (skipn n l) -> fst b <= fst a.
Proof.
  intros H. revert n. induction H as [|x l Hx Hl IH]; intros n Ha Hb.
  - destruct n; contradiction.
  - destruct n as [|n]; simpl in *; [contradiction|].
    destruct Ha as [<-|Ha].
    + apply Hx. eapply in_skipn. exact Hb.
    + now apply (IH n).
Qed.

(** What [largest n] keeps: [min n] (number of rows) rows of the table,
    each with its own [Trafic] value, and no row left out has a larger
    value than a row that is kept. *)
Lemma largest_spec n df ints :
  getitem df Trafic = Ok (map Num ints) ->
  exists sel rest,
    largest n df = Ok {| columns := columns df; rows := map snd sel |}
    /\ length sel = Nat.min n (length (rows df))
    /\ Permutation (sel ++ rest) (combine ints (rows df))
    /\ (forall a b, In a sel -> In b rest -> fst b <= fst a).
Proof.
  intros Hg. unfold largest. rewrite Hg. simpl.
  rewrite int_values_nums. simpl.
  set (s := sort_desc (combine ints (rows df))).
  exists (firstn n s), (skipn n s).
  split; [reflexivity|]. split; [|split].
  - assert (Hs : length s = length (rows df)).
    { unfold s.
      rewrite (Permutation_length (sort_desc_perm (combine ints (rows df)))).
      rewrite length_combine.
      apply getitem_ok in Hg. destruct Hg as [i [_ Hs]].
      apply (f_equal (@length cell)) in Hs.
      rewrite length_map, series_length in Hs. rewrite Hs. lia. }
    rewrite length_firstn, Hs. reflexivity.
  - rewrite firstn_skipn. apply sort_desc_perm.
  - intros a b. apply descending_split. apply sort_desc_descending.
Qed.

Lemma in_combine_row (ints : list Z) (rs : list (list cell)) a :
  In a (combine ints rs) -> In (snd a) rs.
Proof.
  destruct a as [z r]. apply in_combine_r.
Qed.

(** C7.  The bar chart is drawn from at most 15 rows; each is a row of the
    filtered table, and they are the rows of largest Trafic: no row left
    out has a larger Trafic than a row that is kept. *)
Theorem plot_top_bar_largest (df : DataFrame) (ints : list Z) :
  getitem df Trafic = Ok (map Num ints) ->
  exists sel rest,
    plot_top_bar df = Ok {| columns := columns df; rows := map snd sel |}
    /\ (length sel <= 15)%nat
    /\ length sel = Nat.min 15 (length (rows df))
    /\ (forall r, In r (map snd sel) -> In r (rows df))
    /\ Permutation (sel ++ rest) (combine ints (rows df))
    /\ (forall a b, In a sel -> In b rest -> fst b <= fst a).
Proof.
  intros Hg.
  destruct (@largest_spec 15 df ints Hg) as [sel [rest [Hrun [Hlen [Hperm Hmax]]]]].
  exists sel, rest. split; [exact Hrun|].
  split; [lia|]. split; [exact Hlen|]. split; [|split; assumption].
  intros r Hr. apply in_map_iff in Hr. destruct Hr as [a [<- Ha]].
  apply (in_combine_row ints).
  apply (Permutation_in _ Hperm). apply in_or_app. now left.
Qed.

(** C8.  The sunburst chart is drawn from at most 100 rows of the filtered
    table, the rows of highest Trafic: no row left out has a larger Trafic
    than a row that is kept, and all rows are kept when there are fewer
    than 100. *)
Theorem plot_sunburst_largest (df : DataFrame) (ints : list Z) :
  getitem df Trafic = Ok (map Num ints) ->
  exists sel rest,
    plot_sunburst df = Ok {| columns := columns df; rows := map snd sel |}
    /\ (length sel <= 100)%nat
    /\ length sel = Nat.min 100 (length (rows df))
    /\ (forall r, In r (map snd sel) -> In r (rows df))
    /\ Permutation (sel ++ rest) (combine ints (rows df))
    /\ (forall a b, In a sel -> In b rest -> fst b <= fst a).
Proof.
  intros Hg.
  destruct (@largest_spec 100 df ints Hg) as [sel [rest [Hrun [Hlen [Hperm Hmax]]]]].
  exists sel, rest. split; [exact Hrun|].
  split; [lia|]. split; [exact Hlen|]. split; [|split; assumption].
  intros r Hr. apply in_map_iff in Hr. destruct Hr as [a [<- Ha]].
  apply (in_combine_row ints).
  apply (Permutation_in _ Hperm). apply in_or_app. now left.
Qed.

Lemma plot_top_bar_largest_witness :
  let ints := [3; 1; 4; 1; 5; 9; 2; 6; 5; 3; 5; 8; 9; 7; 9; 3; 2] in
  let df := {| columns := [Trafic]; rows := map (fun z => [Num z]) ints |} in
  getitem df Trafic = Ok (map Num ints)
  /\ plot_top_bar df
     = Ok {| columns := [Trafic];
             rows := map (fun z => [Num z])
                         [9; 9; 9; 8; 7; 6; 5; 5; 5; 4; 3; 3; 3; 2; 2] |}
  /\ exists sel rest,
       plot_top_bar df = Ok {| columns := columns df; rows := map snd sel |}
       /\ (length sel <= 15)%nat
       /\ length sel = Nat.min 15 (length (rows df))
       /\ (forall r, In r (map snd sel) -> In r (rows df))
       /\ Permutation (sel ++ rest) (combine ints (rows df))
       /\ (forall a b, In a sel -> In b rest -> fst b <= fst a).
Proof.
  intros ints df.
  assert (Hg : getitem df Trafic = Ok (map Num ints)) by reflexivity.
  split; [exact Hg|]. split; [reflexivity|].
  exact (plot_top_bar_largest df ints Hg).
Defined.

Lemma plot_sunburst_largest_witness :
  let ints := map Z.of_nat (seq 0 120) in
  let df := {| columns := [Trafic]; rows := map (fun z => [Num z]) ints |} in
  getitem df Trafic = Ok (map Num ints)
  /\ plot_sunburst df
     = Ok {| columns := [Trafic];
             rows := map (fun z => [Num z])
                         (rev (map Z.of_nat (seq 20 100))) |}
  /\ exists sel rest,
       plot_sunburst df = Ok {| columns := columns df; rows := map snd sel |}
       /\ (length sel <= 100)%nat
       /\ length sel = Nat.min 100 (length (rows df))
       /\ (forall r, In r (map snd sel) -> In r (rows df))
       /\ Permutation (sel ++ rest) (combine ints (rows df))
       /\ (forall a b, In a sel -> In b rest -> fst b <= fst a).
Proof.
  intros ints df.
  assert (Hg : getitem df Trafic = Ok (map Num ints))
    by (vm_compute; reflexivity).
  split; [exact Hg|]. split; [vm_compute; reflexivity|].
  exact (plot_sunburst_largest df ints Hg).
Defined.

(* ================================================================= *)
(** ** The sums per network *)

Lemma exact_sum_cons x l : exact_sum (x :: l) = x + exact_sum l.
Proof. reflexivity. Qed.

Lemma exact_sum_map_add {A} (f g : A -> Z) l :
  exact_sum (map (fun a => f a + g a) l)
  = exact_sum (map f l) + exact_sum (map g l).
Proof.
  unfold exact_sum. induction l as [|a l IH]; simpl; [reflexivity|].
  rewrite IH. lia.
Qed.

Lemma exact_sum_map_zero {A} (l : list A) :
  exact_sum (map (fun _ => 0) l) = 0.
Proof.
  unfold exact_sum. induction l as [|a l IH]; simpl; [reflexivity | exact IH].
Qed.

(** The sum taken in an [int64] is the exact sum, wrapped around. *)
Lemma sum_from l : forall acc,
  fold_left (fun acc x => wrap64 (acc + x)) l (wrap64 acc)
  = wrap64 (acc + exact_sum l).
Proof.
  induction l as [|x l IH]; intros acc; cbn [fold_left].
  - now rewrite Z.add_0_r.
  - rewrite wrap64_add_l, IH, exact_sum_cons. f_equal. lia.
Qed.

Lemma sum_exact l : sum l = wrap64 (exact_sum l).
Proof. exact (sum_from l 0). Qed.

Lemma exact_sum_abs l : Z.abs (exact_sum l) <= exact_sum (map Z.abs l).
Proof.
  induction l as [|x l IH]; [simpl; lia|].
  cbn [map]. rewrite !exact_sum_cons. lia.
Qed.

(** No wrap-around happens when the magnitudes add up to less than
    [2 ^ 63]. *)
Lemma sum_small l : exact_sum (map Z.abs l) < 2 ^ 63 -> sum l = exact_sum l.
Proof.
  intros H. rewrite sum_exact. apply wrap64_small.
  pose proof (exact_sum_abs l). lia.
Qed.

Lemma exact_sum_filter_abs {A} (p : A -> bool) (f : A -> Z) l :
  exact_sum (map Z.abs (map f (filter p l)))
  <= exact_sum (map Z.abs (map f l)).
Proof.
  induction l as [|a l IH]; [simpl; lia|].
  cbn [filter map]. destruct (p a); cbn [map]; rewrite ?exact_sum_cons; lia.
Qed.

Lemma wrap64_exact_sum_map {A} (f : A -> Z) l :
  wrap64 (exact_sum (map (fun a => wrap64 (f a)) l))
  = wrap64 (exact_sum (map f l)).
Proof.
  induction l as [|a l IH]; [reflexivity|].
  cbn [map]. rewrite !exact_sum_cons.
  rewrite wrap64_add_l, Z.add_comm, <- wrap64_add_l, IH, wrap64_add_l.
  f_equal. lia.
Qed.

(** Sums of wrapped sums: wrapping the parts does not change the whole. *)
Lemma sum_map_sum {A} (values : A -> list Z) l :
  sum (map (fun a => sum (values a)) l)
  = wrap64 (exact_sum (map (fun a => exact_sum (values a)) l)).
Proof.
  rewrite sum_exact.
  rewrite (map_ext _ (fun a => wrap64 (exact_sum (values a))))
    by (intros a; apply sum_exact).
  apply wrap64_exact_sum_map.
Qed.

(** Over keys without repetition, a value counts once if its key is among
    them and not at all otherwise. *)
Lemma sum_indicator c z ks :
  NoDup ks ->
  exact_sum (map (fun k => if cell_eqb c k then z else 0) ks) =
  if existsb (cell_eqb c) ks then z else 0.
Proof.
  induction 1 as [|k ks Hk Hnd IH]; [reflexivity|].
  cbn [map existsb]. rewrite exact_sum_cons, IH.
  destruct (cell_eqb c k) eqn:E; simpl; [|reflexivity].
  apply cell_eqb_eq in E. subst k.
  destruct (existsb (cell_eqb c) ks) eqn:Ex; [|lia].
  apply existsb_exists in Ex. destruct Ex as [k [Hin Hck]].
  apply cell_eqb_eq in Hck. subst k. contradiction.
Qed.

Lemma group_values_cons k c z kv :
  exact_sum (group_values k ((c, z) :: kv)) =
  (if cell_eqb c k then z else 0) + exact_sum (group_values k kv).
Proof.
  unfold group_values. simpl. destruct (cell_eqb c k); reflexivity.
Qed.

(** The group sums add up to the values whose key is one of the groups. *)
Lemma group_sums_total ks kv :
  NoDup ks ->
  exact_sum (map (fun k => exact_sum (group_values k kv)) ks) =
  exact_sum (map snd (filter (fun p => existsb (cell_eqb (fst p)) ks) kv)).
Proof.
  intros Hnd. induction kv as [|[c z] kv IH].
  - unfold group_values. simpl. apply exact_sum_map_zero.
  - rewrite (map_ext _ (fun k => (if cell_eqb c k then z else 0)
                                 + exact_sum (group_values k kv)))
      by (intros k; apply group_values_cons).
    rewrite exact_sum_map_add, IH, sum_indicator by assumption.
    simpl. destruct (existsb (cell_eqb c) ks); reflexivity.
Qed.

Lemma insert_key_perm x l : Permutation (insert_key x l) (x :: l).
Proof.
  induction l as [|y l IH]; simpl; [reflexivity|].
  destruct (cell_leb x y); [reflexivity|].
  rewrite IH. apply perm_swap.
Qed.

Lemma group_keys_perm keys :
  Permutation (group_keys keys)
    (nodup cell_eq_dec (filter (fun c => negb (is_null c)) keys)).
Proof.
  unfold group_keys.
  induction (nodup cell_eq_dec (filter (fun c => negb (is_null c)) keys))
    as [|x l IH]; simpl; [reflexivity|].
  rewrite insert_key_perm. now constructor.
Qed.

Lemma group_keys_NoDup keys : NoDup (group_keys keys).
Proof.
  eapply Permutation_NoDup.
  - symmetry. apply group_keys_perm.
  - apply NoDup_nodup.
Qed.

Lemma group_keys_In keys k :
  In k (group_keys keys) <-> In k keys /\ k <> NaN.
Proof.
  split.
  - intros H. apply (Permutation_in _ (group_keys_perm keys)) in H.
    apply nodup_In, filter_In in H. destruct H as [Hin Hn].
    split; [assumption|]. intros ->. discriminate.
  - intros [Hin Hn].
    apply (Permutation_in _ (Permutation_sym (group_keys_perm keys))).
    apply nodup_In, filter_In. split; [assumption|].
    destruct k; simpl; congruence.
Qed.

Lemma existsb_group_keys keys c :
  In c keys -> existsb (cell_eqb c) (group_keys keys) = negb (is_null c).
Proof.
  intros Hin. destruct (existsb (cell_eqb c) (group_keys keys)) eqn:E.
  - apply existsb_exists in E. destruct E as [k [Hk Hck]].
    apply cell_eqb_eq in Hck. subst k.
    apply group_keys_In in Hk. destruct Hk as [_ Hn].
    destruct c; simpl; congruence.
  - destruct c as [|s|z]; simpl; try reflexivity; exfalso.
    + assert (Hk : In (Str s) (group_keys keys))
        by (apply group_keys_In; split; [assumption | discriminate]).
      assert (Ex : existsb (cell_eqb (Str s)) (group_keys keys) = true)
        by (apply existsb_exists; exists (Str s); split;
            [assumption | now apply cell_eqb_eq]).
      congruence.
    + assert (Hk : In (Num z) (group_keys keys))
        by (apply group_keys_In; split; [assumption | discriminate]).
      assert (Ex : existsb (cell_eqb (Num z)) (group_keys keys) = true)
        by (apply existsb_exists; exists (Num z); split;
            [assumption | now apply cell_eqb_eq]).
      congruence.
Qed.

(** C6, as amended.  The donut table has exactly one row per distinct
    Reseau value of the filtered table that is not missing, with the sum
    of the Trafic of the rows of that value, and its Trafic values add up
    to the Trafic of the rows whose Reseau is not missing (rows with a
    missing key belong to no group); so the regrouping is lossless on a
    table in which no Reseau is missing.  The sums are the ones the code
    takes, in [int64]: they wrap around, and they are the exact sums when
    the magnitudes of the Trafic values add up to less than 2^63. *)
Theorem plot_donut_sums (df : DataFrame) (keys : list cell) (ints : list Z) :
  getitem df Reseau = Ok keys ->
  getitem df Trafic = Ok (map Num ints) ->
  exists groups : list (cell * Z),
    plot_donut df
    = Ok {| columns := [Reseau; Trafic];
            rows := map (fun g => [fst g; Num (snd g)]) groups |}
    /\ NoDup (map fst groups)
    /\ (forall k, In k (map fst groups) <-> In k keys /\ k <> NaN)
    /\ (forall g, In g groups ->
                  snd g = sum (group_values (fst g) (combine keys ints)))
    /\ sum (map snd groups)
       = sum (map snd (filter (fun p => negb (is_null (fst p)))
                              (combine keys ints)))
    /\ (Forall (fun k => k <> NaN) keys -> sum (map snd groups) = sum ints)
    /\ (exact_sum (map Z.abs ints) < 2 ^ 63 ->
        (forall g, In g groups ->
                   snd g = exact_sum (group_values (fst g)
                                                   (combine keys ints)))
        /\ exact_sum (map snd groups)
           = exact_sum (map snd (filter (fun p => negb (is_null (fst p)))
                                        (combine keys ints)))
        /\ sum ints = exact_sum ints).
Proof.
  intros Hk Ht.
  assert (Hlen : length keys = length ints).
  { apply getitem_ok in Hk. destruct Hk as [i [_ ->]].
    apply getitem_ok in Ht. destruct Ht as [j [_ Ht]].
    apply (f_equal (@length cell)) in Ht.
    rewrite length_map, series_length in Ht.
    rewrite series_length. congruence. }
  set (kv := combine keys ints).
  assert (Hkv : map snd kv = ints)
    by (unfold kv; apply map_snd_combine; exact Hlen).
  exists (map (fun k => (k, group_sum k kv)) (group_keys keys)).
  assert (Hfst : map fst (map (fun k => (k, group_sum k kv))
                              (group_keys keys)) = group_keys keys).
  { rewrite map_map. simpl. apply map_id. }
  assert (Hpick : forall p, In p kv ->
            existsb (cell_eqb (fst p)) (group_keys keys)
            = negb (is_null (fst p))).
  { intros [c z] Hin. simpl. apply existsb_group_keys.
    unfold kv in Hin. now apply in_combine_l in Hin. }
  assert (Hexact : exact_sum (map (fun k => exact_sum (group_values k kv))
                                  (group_keys keys))
                   = exact_sum (map snd (filter (fun p => negb (is_null (fst p)))
                                                kv))).
  { rewrite group_sums_total by apply group_keys_NoDup.
    f_equal. f_equal. now apply filter_ext_in. }
  assert (Hsum : sum (map snd (map (fun k => (k, group_sum k kv))
                                   (group_keys keys)))
                 = sum (map snd (filter (fun p => negb (is_null (fst p)))
                                        kv))).
  { rewrite map_map. cbn [snd]. unfold group_sum.
    rewrite sum_map_sum, Hexact. symmetry. apply sum_exact. }
  split; [|split; [|split; [|split; [|split; [|split]]]]].
  - unfold plot_donut. rewrite Hk, Ht. simpl.
    rewrite int_values_nums. simpl. rewrite map_map. reflexivity.
  - rewrite Hfst. apply group_keys_NoDup.
  - intros k. rewrite Hfst. apply group_keys_In.
  - intros g Hg. apply in_map_iff in Hg. destruct Hg as [k [<- _]].
    reflexivity.
  - exact Hsum.
  - intros Hnn. rewrite Hsum. rewrite filter_all.
    + now rewrite Hkv.
    + apply Forall_forall. intros [c z] Hin. simpl.
      unfold kv in Hin. apply in_combine_l in Hin.
      rewrite Forall_forall in Hnn. specialize (Hnn c Hin).
      destruct c; simpl; congruence.
  - intros Hb.
    assert (Hgrp : forall k, group_sum k kv = exact_sum (group_values k kv)).
    { intros k. unfold group_sum. apply sum_small.
      eapply Z.le_lt_trans; [|exact Hb].
      unfold group_values. rewrite <- Hkv. apply exact_sum_filter_abs. }
    split; [|split].
    + intros g Hg. apply in_map_iff in Hg. destruct Hg as [k [<- _]].
      apply Hgrp.
    + rewrite map_map. cbn [snd].
      rewrite (map_ext _ (fun k => exact_sum (group_values k kv)))
        by (intros k; apply Hgrp).
      exact Hexact.
    + now apply sum_small.
Qed.

Lemma plot_donut_sums_witness :
  let df := {| columns := [Reseau; Station; Trafic; Ville];
               rows := [[Str (py "Métro"); Str (py "Nation");
                         Num 1200000; Str (py "Paris")];
                        [Str (py "RER"); Str (py "La Défense");
                         Num 900000; Str (py "Puteaux")];
                        [Str (py "Métro"); Str (py "Mairie de Montreuil");
                         Num 500000; Str (py "Montreuil")]] |} in
  let keys := [Str (py "Métro"); Str (py "RER"); Str (py "Métro")] in
  let ints := [1200000; 900000; 500000] in
  getitem df Reseau = Ok keys
  /\ getitem df Trafic = Ok (map Num ints)
  /\ Forall (fun k => k <> NaN) keys
  /\ exact_sum (map Z.abs ints) < 2 ^ 63
  /\ plot_donut df
     = Ok {| columns := [Reseau; Trafic];
             rows := [[Str (py "Métro"); Num 1700000];
                      [Str (py "RER"); Num 900000]] |}
  /\ exists groups : list (cell * Z),
       plot_donut df
       = Ok {| columns := [Reseau; Trafic];
               rows := map (fun g => [fst g; Num (snd g)]) groups |}
       /\ NoDup (map fst groups)
       /\ (forall k, In k (map fst groups) <-> In k keys /\ k <> NaN)
       /\ (forall g, In g groups ->
                     snd g = sum (group_values (fst g) (combine keys ints)))
       /\ sum (map snd groups)
          = sum (map snd (filter (fun p => negb (is_null (fst p)))
                                 (combine keys ints)))
       /\ (Forall (fun k => k <> NaN) keys ->
           sum (map snd groups) = sum ints)
       /\ (exact_sum (map Z.abs ints) < 2 ^ 63 ->
           (forall g, In g groups ->
                      snd g = exact_sum (group_values (fst g)
                                                      (combine keys ints)))
           /\ exact_sum (map snd groups)
              = exact_sum (map snd (filter (fun p => negb (is_null (fst p)))
                                           (combine keys ints)))
           /\ sum ints = exact_sum ints).
Proof.
  intros df keys ints.
  assert (Hk : getitem df Reseau = Ok keys) by reflexivity.
  assert (Ht : getitem df Trafic = Ok (map Num ints)) by reflexivity.
  split; [exact Hk|]. split; [exact Ht|].
  split; [repeat constructor; discriminate|].
  split; [vm_compute; reflexivity|].
  split; [vm_compute; reflexivity|].
  exact (@plot_donut_sums df keys ints Hk Ht).
Defined.

(** C6 as written fails.  A numeric network column with a blank is read as
    numbers with a missing value; [load_data] fills the blank with "Autre"
    and the [.str] method leaves the number missing.  With every network
    value selected the filter keeps both rows, and the donut table holds
    the Trafic of one of them only. *)
Lemma plot_donut_drops_missing_network :
  let raw := {| columns := [py "Réseau"; py "Station"; py "Trafic"];
                rows := [[Num 1; Str (py "Nation"); Num 10];
                         [NaN; Str (py "Bercy"); Num 20]] |} in
  let df := {| columns := [Reseau; Station; Trafic];
               rows := [[NaN; Str (py "Nation"); Num 10];
                        [Str (py "Autre"); Str (py "Bercy"); Num 20]] |} in
  load_data {| path_exists := true; read_csv := Some raw |} = Ok df
  /\ filter_stage df [NaN; Str (py "Autre")] [] = Ok df
  /\ plot_donut df
     = Ok {| columns := [Reseau; Trafic];
             rows := [[Str (py "Autre"); Num 20]] |}
  /\ ~ (forall df ints out sums,
           getitem df Trafic = Ok (map Num ints) ->
           plot_donut df = Ok out ->
           getitem out Trafic = Ok (map Num sums) ->
           sum sums = sum ints).
Proof.
  intros raw df.
  split; [reflexivity|]. split; [reflexivity|]. split; [reflexivity|].
  intros H.
  specialize (H df [10; 20] _ [20] eq_refl eq_refl eq_refl).
  vm_compute in H. discriminate.
Qed.

Lemma load_data_row_count_witness :
  let raw := {| columns := [py "Réseau"; py "Station";
                            py "Trafic (Validations)"; py "Ville"];
                rows := [[Str (py "Metro"); Str (py "Nation");
                          Str (py "1 200 000"); Str (py "paris")];
                         [NaN; Str (py "Bercy"); Str (py "n/a"); NaN]] |} in
  let src := {| path_exists := true; read_csv := Some raw |} in
  let df := {| columns := [Reseau; Station; Trafic; Ville];
               rows := [[Str (py "Métro"); Str (py "Nation");
                         Num 1200000; Str (py "Paris")];
                        [Str (py "Autre"); Str (py "Bercy");
                         Num 0; Str (py "Inconnue")]] |} in
  path_exists src = true
  /\ read_csv src = Some raw
  /\ Forall (fun h => forallb latin1 h = true) (columns raw)
  /\ cleanable (rename_headers raw)
  /\ load_data src = Ok df
  /\ length (rows df) = length (rows raw)
  /\ exists df', load_data src = Ok df'.
Proof.
  intros raw src df.
  assert (Hrun : load_data src = Ok df) by (vm_compute; reflexivity).
  assert (Hclean : cleanable (rename_headers raw)).
  { split; [|split; [|split]].
    - change (NoDup [Reseau; Station; Trafic; Ville]).
      repeat constructor; simpl; intuition discriminate.
    - intros i [<-|[]]. repeat constructor.
    - intros i [<-|[]]. repeat constructor.
    - intros i [<-|[]]. repeat constructor. }
  assert (Hl : Forall (fun h => forallb latin1 h = true) (columns raw))
    by (repeat constructor).
  destruct (@load_data_row_count src raw eq_refl eq_refl) as [Hcount Hret].
  split; [reflexivity|]. split; [reflexivity|]. split; [exact Hl|].
  split; [exact Hclean|]. split; [exact Hrun|].
  split; [exact (Hcount df Hrun) | exact (Hret Hl Hclean)].
Defined.

(* ================================================================= *)
(** ** Labels after renaming *)

(** No table with a repeated [Trafic], [Ville] or [Reseau] label leaves
    [load_data]. *)
Lemma load_data_labels src df name :
  load_data src = Ok df ->
  In name [Trafic; Ville; Reseau] ->
  (length (positions name (columns df) 0) <= 1)%nat.
Proof.
  unfold load_data. intros H Hname.
  destruct (negb (path_exists src)).
  { injection H as <-. destruct Hname as [<-|[<-|[<-|[]]]]; simpl; lia. }
  destruct (read_csv src) as [raw|].
  2:{ injection H as <-. destruct Hname as [<-|[<-|[<-|[]]]]; simpl; lia. }
  pose proof (field_normalizer_shape _ H) as [Hcols _].
  rewrite Hcols. unfold field_normalizer in H.
  bind_inv H. rename a into df1. bind_inv H. rename a into df2.
  assert (C1 : columns df1 = columns (rename_headers raw)).
  { apply clean_trafic_step in Ha.
    destruct Ha as [->|[j [s [_ [-> _]]]]]; reflexivity. }
  assert (C2 : columns df2 = columns df1).
  { apply clean_ville_step in Ha0.
    destruct Ha0 as [->|[j [s [_ [-> _]]]]]; reflexivity. }
  destruct Hname as [<-|[<-|[<-|[]]]].
  - apply clean_trafic_ok in Ha.
    destruct Ha as [[Hno _]|[i [ints [Hp _]]]].
    + rewrite (has_column_positions _ _ Hno). simpl. lia.
    + rewrite Hp. simpl. lia.
  - apply clean_ville_ok in Ha0. rewrite <- C1.
    destruct Ha0 as [[Hno _]|[i [s [Hp _]]]].
    + rewrite (has_column_positions _ _ Hno). simpl. lia.
    + rewrite Hp. simpl. lia.
  - apply clean_reseau_ok in H. rewrite <- C1, <- C2.
    destruct H as [[Hno _]|[i [s [Hp _]]]].
    + rewrite (has_column_positions _ _ Hno). simpl. lia.
    + rewrite Hp. simpl. lia.
Qed.

Lemma lower_char_no_upper c : is_upper (lower_char c) = false.
Proof.
  unfold lower_char. destruct (is_upper c) eqn:E; [|exact E].
  unfold is_upper in *.
  rewrite orb_true_iff, !andb_true_iff, negb_true_iff, !N.leb_le,
    N.eqb_neq in E.
  apply not_true_iff_false. intros H.
  rewrite orb_true_iff, !andb_true_iff, negb_true_iff, !N.leb_le,
    N.eqb_neq in H.
  lia.
Qed.

Lemma lstrip_no_upper s : no_upper s -> no_upper (lstrip s).
Proof.
  induction 1 as [|c s Hc Hs IH]; simpl; [constructor|].
  destruct (isspace c); [exact IH | now constructor].
Qed.

Lemma replace_from_no_upper old new skip s :
  no_upper new -> no_upper s -> no_upper (replace_from old new skip s).
Proof.
  intros Hnew Hs. revert skip.
  induction Hs as [|c s Hc Hs IH]; intros skip; simpl; [constructor|].
  destruct skip as [|k]; [|apply IH].
  destruct (startswith old (c :: s)).
  - apply Forall_app. split; [exact Hnew | apply IH].
  - constructor; [exact Hc | apply IH].
Qed.

Lemma normalize_header_no_upper c : no_upper (normalize_header c).
Proof.
  unfold normalize_header, replace.
  apply replace_from_no_upper; [repeat constructor|].
  unfold strip. apply Forall_rev, lstrip_no_upper, Forall_rev,
    lstrip_no_upper.
  unfold lower. apply Forall_map, Forall_forall. intros ch _.
  apply lower_char_no_upper.
Qed.

(** A cleaned header is never one of the canonical labels, which start
    with a capital. *)
Lemma canonical_label_upper fk :
  In fk field_keys -> ~ no_upper (fst fk).
Proof.
  intros Hin Hno.
  repeat (destruct Hin as [<-|Hin];
          [inversion Hno as [|? ? Hc _]; discriminate Hc|]).
  destruct Hin.
Qed.

Lemma renamed_to_claims cols h k :
  renamed_to cols h = Some k ->
  exists fk, In fk field_keys /\ fst fk = k
             /\ get_col cols (snd fk) = Some h.
Proof.
  rewrite renamed_to_claimant. unfold last_claimant.
  destruct (find (claims cols h) (rev field_keys)) as [fk|] eqn:F;
    [|discriminate].
  simpl. intros H. injection H as <-.
  apply find_some in F. destruct F as [Hin Hc].
  exists fk. split; [now apply in_rev in Hin|]. split; [reflexivity|].
  unfold claims in Hc.
  destruct (get_col cols (snd fk)) as [v|]; [|discriminate].
  simpl in Hc. apply pystr_eqb_eq in Hc. now subst.
Qed.

Lemma field_keys_functional fk1 fk2 :
  In fk1 field_keys -> In fk2 field_keys -> fst fk1 = fst fk2 -> fk1 = fk2.
Proof.
  intros H1 H2.
  repeat (destruct H1 as [<-|H1]);
    repeat (destruct H2 as [<-|H2]);
    try reflexivity; try contradiction; simpl; intros E; discriminate E.
Qed.


(* ================================================================= *)
(** ** More on the filter *)

Lemma select_rows_filter (f : list cell -> cell) rs allowed :
  select_rows rs (isin (map f rs) allowed)
  = filter (fun r => existsb (cell_eqb (f r)) allowed) rs.
Proof.
  induction rs as [|r rs IH]; simpl; [reflexivity|].
  rewrite IH. reflexivity.
Qed.

Lemma filter_twice {A} (p q : A -> bool) l :
  filter q (filter p l) = filter (fun a => p a && q a) l.
Proof.
  induction l as [|a l IH]; simpl; [reflexivity|].
  destruct (p a); simpl; [|exact IH].
  destruct (q a); simpl; now rewrite IH.
Qed.

Lemma filter_stage_form
    (df : DataFrame) (sel_res sel_city : list cell) (i j : nat) :
  positions Reseau (columns df) 0 = [i] ->
  positions Ville (columns df) 0 = [j] ->
  filter_stage df sel_res sel_city
  = Ok {| columns := columns df;
          rows := filter (passes i j sel_res sel_city) (rows df) |}.
Proof.
  intros Hi Hj. unfold filter_stage, getitem. rewrite Hi. simpl.
  unfold select, series. rewrite select_rows_filter.
  destruct sel_city as [|c sel_city]; simpl.
  - f_equal. f_equal. apply filter_ext. intros r. unfold passes.
    now rewrite andb_true_r.
  - rewrite Hj. simpl. rewrite select_rows_filter, filter_twice.
    reflexivity.
Qed.

(** X1.  The filter keeps exactly the rows that pass: a row of the table
    is in the output if and only if its Reseau value is selected and,
    when some city is selected, its Ville value is selected too.  No
    qualifying row is dropped. *)
Theorem filter_stage_exact
    (df : DataFrame) (sel_res sel_city : list cell) (i j : nat) :
  positions Reseau (columns df) 0 = [i] ->
  positions Ville (columns df) 0 = [j] ->
  filter_stage df sel_res sel_city
  = Ok {| columns := columns df;
          rows := filter (passes i j sel_res sel_city) (rows df) |}
  /\ forall r,
       In r (filter (passes i j sel_res sel_city) (rows df)) <->
       In r (rows df)
       /\ In (nth i r NaN) sel_res
       /\ (sel_city = [] \/ In (nth j r NaN) sel_city).
Proof.
  intros Hi Hj. split; [now apply filter_stage_form|].
  intros r. rewrite filter_In. unfold passes.
  rewrite andb_true_iff, existsb_exists.
  assert (Hmem : forall c l, (exists x, In x l /\ cell_eqb c x = true)
                             <-> In c l).
  { intros c l. split.
    - intros [x [Hx Heq]]. apply cell_eqb_eq in Heq. now subst.
    - intros Hc. exists c. split; [assumption | now apply cell_eqb_eq]. }
  rewrite Hmem.
  destruct sel_city as [|c sel_city].
  - intuition.
  - rewrite existsb_exists, Hmem. intuition discriminate.
Qed.

Lemma filter_stage_exact_witness :
  let df := {| columns := [Reseau; Station; Trafic; Ville];
               rows := [[Str (py "Métro"); Str (py "Nation");
                         Num 1200000; Str (py "Paris")];
                        [Str (py "RER"); Str (py "La Défense");
                         Num 900000; Str (py "Puteaux")];
                        [Str (py "Métro"); Str (py "Mairie de Montreuil");
                         Num 500000; Str (py "Montreuil")]] |} in
  let sel_res := [Str (py "Métro")] in
  let sel_city := [Str (py "Montreuil"); Str (py "Puteaux")] in
  positions Reseau (columns df) 0 = [0%nat]
  /\ positions Ville (columns df) 0 = [3%nat]
  /\ filter_stage df sel_res sel_city
     = Ok {| columns := columns df;
             rows := filter (passes 0 3 sel_res sel_city) (rows df) |}.
Proof.
  intros df sel_res sel_city.
  split; [reflexivity|]. split; [reflexivity|].
  exact (proj1 (@filter_stage_exact df sel_res sel_city 0%nat 3%nat
                  eq_refl eq_refl)).
Defined.

Lemma unique_from_In seen s c :
  In c (unique_from seen s) \/ In c seen <-> In c s \/ In c seen.
Proof.
  revert seen. induction s as [|a s IH]; intros seen; simpl; [tauto|].
  destruct (existsb (cell_eqb a) seen) eqn:E.
  - rewrite IH. apply existsb_exists in E. destruct E as [a' [Ha' Heq]].
    apply cell_eqb_eq in Heq. subst a'.
    split; [tauto|]. intros [[<-|H]|H]; tauto.
  - simpl. specialize (IH (a :: seen)). simpl in IH. tauto.
Qed.

Lemma unique_In s c : In c (unique s) <-> In c s.
Proof.
  pose proof (unique_from_In [] s c) as H. simpl in H. unfold unique. tauto.
Qed.

(** X2.  With the selection the page starts with (every distinct value of
    the Reseau column selected, no city selected) the filter returns the
    whole table, unchanged. *)
Theorem filter_stage_default (df : DataFrame) (res : list cell) :
  getitem df Reseau = Ok res ->
  filter_stage df (unique res) [] = Ok df.
Proof.
  intros Hg. unfold filter_stage. rewrite Hg. simpl.
  apply getitem_ok in Hg. destruct Hg as [i [_ ->]].
  unfold select, series. rewrite select_rows_filter, filter_all.
  - destruct df; reflexivity.
  - apply Forall_forall. intros r Hr. apply existsb_exists.
    exists (nth i r NaN). split; [|now apply cell_eqb_eq].
    apply unique_In. apply in_map_iff. now exists r.
Qed.

Lemma filter_stage_default_witness :
  let df := {| columns := [Reseau; Trafic];
               rows := [[Str (py "Métro"); Num 3];
                        [Str (py "RER"); Num 5];
                        [NaN; Num 1];
                        [Str (py "Métro"); Num 2]] |} in
  let res := [Str (py "Métro"); Str (py "RER"); NaN; Str (py "Métro")] in
  getitem df Reseau = Ok res
  /\ unique res = [Str (py "Métro"); Str (py "RER"); NaN]
  /\ filter_stage df (unique res) [] = Ok df.
Proof.
  intros df res.
  assert (Hg : getitem df Reseau = Ok res) by reflexivity.
  split; [exact Hg|]. split; [reflexivity|].
  exact (filter_stage_default df Hg).
Defined.

(* ================================================================= *)
(** ** The key figures of a view with rows *)

(** The position [argmax_from] returns, the list read so far being [pre]:
    it holds a largest value of the whole list, and every value before it
    is smaller. *)
Lemma argmax_from_spec l : forall pre bi b,
  (bi < length pre)%nat ->
  nth bi pre 0 = b ->
  (forall j, (j < length pre)%nat -> nth j pre 0 <= b) ->
  (forall j, (j < bi)%nat -> nth j pre 0 < b) ->
  let m := argmax_from bi b (length pre) l in
  (m < length (pre ++ l))%nat
  /\ (forall j, (j < length (pre ++ l))%nat ->
                nth j (pre ++ l) 0 <= nth m (pre ++ l) 0)
  /\ (forall j, (j < m)%nat -> nth j (pre ++ l) 0 < nth m (pre ++ l) 0).
Proof.
  induction l as [|x l IH]; intros pre bi b Hbi Hb Hle Hlt; simpl.
  - rewrite app_nil_r. rewrite Hb. auto.
  - assert (Hlen : S (length pre) = length (pre ++ [x]))
      by (rewrite length_app; simpl; lia).
    assert (Happ : pre ++ x :: l = (pre ++ [x]) ++ l)
      by (rewrite <- app_assoc; reflexivity).
    rewrite Hlen, Happ.
    destruct (b <? x) eqn:E.
    + apply Z.ltb_lt in E. apply IH.
      * rewrite <- Hlen. lia.
      * rewrite app_nth2 by lia. now rewrite Nat.sub_diag.
      * intros j Hj. rewrite <- Hlen in Hj.
        destruct (Nat.eq_dec j (length pre)) as [->|Hne].
        -- rewrite app_nth2 by lia. rewrite Nat.sub_diag. simpl. lia.
        -- rewrite app_nth1 by lia. specialize (Hle j). lia.
      * intros j Hj. rewrite app_nth1 by lia. specialize (Hle j). lia.
    + apply Z.ltb_ge in E. apply IH.
      * rewrite <- Hlen. lia.
      * rewrite app_nth1 by lia. exact Hb.
      * intros j Hj. rewrite <- Hlen in Hj.
        destruct (Nat.eq_dec j (length pre)) as [->|Hne].
        -- rewrite app_nth2 by lia. rewrite Nat.sub_diag. simpl. lia.
        -- rewrite app_nth1 by lia. apply Hle. lia.
      * intros j Hj. rewrite app_nth1 by lia. now apply Hlt.
Qed.

Lemma idxmax_spec x l :
  exists m, idxmax (x :: l) = Ok m
    /\ (m < length (x :: l))%nat
    /\ (forall j, (j < length (x :: l))%nat ->
                  nth j (x :: l) 0 <= nth m (x :: l) 0)
    /\ (forall j, (j < m)%nat -> nth j (x :: l) 0 < nth m (x :: l) 0).
Proof.
  exists (argmax_from 0 x 1 l). split; [reflexivity|].
  apply (argmax_from_spec l [x] (bi := 0%nat) (b := x)); simpl.
  - lia.
  - reflexivity.
  - intros [|j] Hj; [lia | lia].
  - intros j Hj. lia.
Qed.

(** X3.  On a view with at least one row, a Station column and an integer
    Trafic column whose magnitudes add up to no more than 2^53 (so that
    neither the [int64] total wraps around nor the [float64] sum behind
    the mean is rounded), the four figures are produced: the total is the
    sum of Trafic, the count is the number of rows, the mean is the total
    over the count, and Top Station is the Station of the first row that
    holds the largest Trafic of all rows. *)
Theorem kpis_of_rows (df : DataFrame) (ints : list Z) (k : nat) :
  getitem df Trafic = Ok (map Num ints) ->
  positions Station (columns df) 0 = [k] ->
  rows df <> [] ->
  exact_sum (map Z.abs ints) <= 2 ^ 53 ->
  exists i,
    (i < length (rows df))%nat
    /\ kpis df
       = Ok {| total := exact_sum ints;
               stations := length (rows df);
               top_station := nth k (nth i (rows df) []) NaN;
               mean := Some (exact_sum ints, length (rows df)) |}
    /\ (forall j, (j < length ints)%nat -> nth j ints 0 <= nth i ints 0)
    /\ (forall j, (j < i)%nat -> nth j ints 0 < nth i ints 0).
Proof.
  intros Hg Hk Hrows Hb.
  assert (Hsum : sum ints = exact_sum ints) by (apply sum_small; lia).
  assert (Hlen : length ints = length (rows df)).
  { pose proof Hg as Hg'. apply getitem_ok in Hg'.
    destruct Hg' as [p [_ Hs]].
    apply (f_equal (@length cell)) in Hs.
    now rewrite length_map, series_length in Hs. }
  destruct ints as [|x ints].
  { destruct (rows df); [congruence | discriminate]. }
  destruct (idxmax_spec x ints) as [m [Hm [Hlt [Hmax Hfirst]]]].
  remember (x :: ints) as l eqn:El. clear El.
  exists m. split; [now rewrite <- Hlen|].
  split; [|split; assumption].
  assert (Hne : empty df = false).
  { unfold empty. pose proof Hk as Hk'.
    destruct (columns df); [discriminate|].
    destruct (rows df); [congruence | reflexivity]. }
  unfold kpis, top_station_of. rewrite Hg. simpl bind.
  rewrite int_values_nums. simpl bind. rewrite Hne. simpl negb. cbv iota.
  rewrite Hm. simpl bind. unfold row_getitem. rewrite Hk. simpl bind.
  rewrite Hsum.
  destruct (length (rows df)) eqn:En; [simpl in Hlen; lia | reflexivity].
Qed.

Lemma kpis_of_rows_witness :
  let df := {| columns := [Reseau; Station; Trafic];
               rows := [[Str (py "Métro"); Str (py "Nation"); Num 7];
                        [Str (py "RER"); Str (py "Auber"); Num 9];
                        [Str (py "Métro"); Str (py "Bercy"); Num 9]] |} in
  getitem df Trafic = Ok (map Num [7; 9; 9])
  /\ positions Station (columns df) 0 = [1%nat]
  /\ rows df <> []
  /\ exact_sum (map Z.abs [7; 9; 9]) <= 2 ^ 53
  /\ kpis df = Ok {| total := 25; stations := 3;
                     top_station := Str (py "Auber");
                     mean := Some (25, 3%nat) |}
  /\ exists i,
       (i < length (rows df))%nat
       /\ kpis df
          = Ok {| total := exact_sum [7; 9; 9];
                  stations := length (rows df);
                  top_station := nth 1 (nth i (rows df) []) NaN;
                  mean := Some (exact_sum [7; 9; 9], length (rows df)) |}
       /\ (forall j, (j < length [7; 9; 9])%nat ->
                     nth j [7; 9; 9] 0 <= nth i [7; 9; 9] 0)
       /\ (forall j, (j < i)%nat -> nth j [7; 9; 9] 0 < nth i [7; 9; 9] 0).
Proof.
  intros df.
  assert (Hg : getitem df Trafic = Ok (map Num [7; 9; 9])) by reflexivity.
  assert (Hk : positions Station (columns df) 0 = [1%nat]) by reflexivity.
  assert (Hr : rows df <> []) by discriminate.
  assert (Hb : exact_sum (map Z.abs [7; 9; 9]) <= 2 ^ 53)
    by (vm_compute; discriminate).
  split; [exact Hg|]. split; [exact Hk|]. split; [exact Hr|].
  split; [exact Hb|]. split; [vm_compute; reflexivity|].
  exact (@kpis_of_rows df [7; 9; 9] 1%nat Hg Hk Hr Hb).
Defined.

(* ================================================================= *)
(** ** The detailed table *)

(** X4.  The table under "Données détaillées" holds every row of the view
    exactly once, each with its own Trafic, in descending order of
    Trafic. *)
Theorem detailed_data_sorted (df : DataFrame) (ints : list Z) :
  getitem df Trafic = Ok (map Num ints) ->
  exists sorted,
    detailed_data df
    = Ok {| columns := columns df; rows := map snd sorted |}
    /\ Permutation sorted (combine ints (rows df))
    /\ Permutation (map snd sorted) (rows df)
    /\ descending sorted.
Proof.
  intros Hg. exists (sort_desc (combine ints (rows df))).
  split; [|split; [|split]].
  - unfold detailed_data. rewrite Hg. simpl.
    rewrite int_values_nums. reflexivity.
  - apply sort_desc_perm.
  - rewrite (Permutation_map snd (sort_desc_perm _)).
    rewrite map_snd_combine; [reflexivity|].
    apply getitem_ok in Hg. destruct Hg as [p [_ Hs]].
    apply (f_equal (@length cell)) in Hs.
    now rewrite length_map, series_length in Hs.
  - apply sort_desc_descending.
Qed.

Lemma detailed_data_sorted_witness :
  let df := {| columns := [Station; Trafic];
               rows := [[Str (py "Nation"); Num 7];
                        [Str (py "Auber"); Num 9];
                        [Str (py "Bercy"); Num 8]] |} in
  getitem df Trafic = Ok (map Num [7; 9; 8])
  /\ detailed_data df
     = Ok {| columns := [Station; Trafic];
             rows := [[Str (py "Auber"); Num 9];
                      [Str (py "Bercy"); Num 8];
                      [Str (py "Nation"); Num 7]] |}
  /\ exists sorted,
       detailed_data df
       = Ok {| columns := columns df; rows := map snd sorted |}
       /\ Permutation sorted (combine [7; 9; 8] (rows df))
       /\ Permutation (map snd sorted) (rows df)
       /\ descending sorted.
Proof.
  intros df.
  assert (Hg : getitem df Trafic = Ok (map Num [7; 9; 8])) by reflexivity.
  split; [exact Hg|]. split; [reflexivity|].
  exact (detailed_data_sorted df [7; 9; 8] Hg).
Defined.

(* ================================================================= *)
(** ** The cleaning of [Ville] and [Reseau] *)

Unset Implicit Arguments.

Lemma clean_reseau_step df df' :
  clean_reseau df = Ok df' ->
  df' = df
  \/ exists j s, positions Reseau (columns df) 0 = [j]
                 /\ df' = assign df j s /\ length s = length (rows df).
Proof.
  intros H. apply clean_reseau_ok in H.
  destruct H as [[_ ->]|H]; [now left | now right].
Qed.

Lemma step_shape df df' name :
  (df' = df
   \/ exists j s, positions name (columns df) 0 = [j]
                  /\ df' = assign df j s /\ length s = length (rows df)) ->
  columns df' = columns df /\ (rectangular df -> rectangular df').
Proof.
  intros [->|[j [s [_ [-> _]]]]]; [now split|].
  split; [reflexivity | apply assign_rectangular].
Qed.

Lemma field_normalizer_steps df df' :
  field_normalizer df = Ok df' ->
  exists df1 df2,
    clean_trafic df = Ok df1 /\ clean_ville df1 = Ok df2
    /\ clean_reseau df2 = Ok df'.
Proof.
  unfold field_normalizer. intros H.
  bind_inv H. bind_inv H. eauto.
Qed.

Lemma positions_has_column name df i :
  positions name (columns df) 0 = [i] -> has_column name df = true.
Proof.
  intros H. destruct (has_column name df) eqn:E; [reflexivity|].
  apply has_column_positions in E. congruence.
Qed.

Lemma clean_ville_at df df' j :
  positions Ville (columns df) 0 = [j] ->
  clean_ville df = Ok df' ->
  df' = assign df j (map ville_value (series df j))
  /\ (series df j = [] \/ exists c, In c (series df j) /\ is_num c = false).
Proof.
  intros Hj. unfold clean_ville.
  rewrite (positions_has_column _ _ _ Hj), Hj.
  intros H. bind_inv H. injection H as <-.
  pose proof Ha as Hacc. apply str_accessor_ok in Ha. subst a.
  split; [now rewrite map_map|].
  unfold str_accessor in Hacc.
  destruct (series df j) as [|c s]; [now left|]. right.
  destruct (existsb is_str (map (fillna (py "Inconnue")) (c :: s))) eqn:E;
    [|discriminate].
  apply existsb_exists in E. destruct E as [c' [Hin Hc']].
  apply in_map_iff in Hin. destruct Hin as [c0 [<- Hin]].
  exists c0. split; [exact Hin|]. destruct c0; simpl in *; congruence.
Qed.

Lemma clean_reseau_at df df' j :
  positions Reseau (columns df) 0 = [j] ->
  clean_reseau df = Ok df' ->
  df' = assign df j (map reseau_value (series df j))
  /\ (series df j = [] \/ exists c, In c (series df j) /\ is_num c = false).
Proof.
  intros Hj. unfold clean_reseau.
  rewrite (positions_has_column _ _ _ Hj), Hj.
  intros H. bind_inv H. injection H as <-.
  pose proof Ha as Hacc. apply str_accessor_ok in Ha. subst a.
  split; [now rewrite map_map|].
  unfold str_accessor in Hacc.
  destruct (series df j) as [|c s]; [now left|]. right.
  destruct (existsb is_str (map (fillna (py "Autre")) (c :: s))) eqn:E;
    [|discriminate].
  apply existsb_exists in E. destruct E as [c' [Hin Hc']].
  apply in_map_iff in Hin. destruct Hin as [c0 [<- Hin]].
  exists c0. split; [exact Hin|]. destruct c0; simpl in *; congruence.
Qed.

(** The [Ville] and [Reseau] columns as the cleaning of the fields leaves
    them, when it returns. *)
Lemma field_normalizer_columns df df' :
  rectangular df ->
  field_normalizer df = Ok df' ->
  columns df' = columns df
  /\ (forall j, positions Ville (columns df) 0 = [j] ->
        series df' j = map ville_value (series df j)
        /\ (series df j = []
            \/ exists c, In c (series df j) /\ is_num c = false))
  /\ (forall k, positions Reseau (columns df) 0 = [k] ->
        series df' k = map reseau_value (series df k)
        /\ (series df k = []
            \/ exists c, In c (series df k) /\ is_num c = false)).
Proof.
  intros Hrect H.
  destruct (field_normalizer_steps _ _ H) as [df1 [df2 [H1 [H2 H3]]]].
  destruct canonical_labels_distinct as [HTV [HTR HVR]].
  pose proof (@clean_trafic_step _ _ H1) as S1.
  pose proof (@clean_ville_step _ _ H2) as S2.
  pose proof (@clean_reseau_step _ _ H3) as S3.
  destruct (step_shape _ _ _ S1) as [C1 R1].
  destruct (step_shape _ _ _ S2) as [C2 R2].
  destruct (step_shape _ _ _ S3) as [C3 R3].
  split; [congruence|]. split.
  - intros j Hj.
    assert (Hj0 : In j (positions Ville (columns df) 0))
      by (rewrite Hj; now left).
    destruct (@series_after_step _ _ Trafic Ville j HTV S1 Hj0) as [_ E1].
    assert (Hj1 : positions Ville (columns df1) 0 = [j]) by congruence.
    destruct (clean_ville_at _ _ _ Hj1 H2) as [E2 Hnum].
    assert (Hj2 : In j (positions Ville (columns df2) 0))
      by (rewrite C2, Hj1; now left).
    destruct (@series_after_step _ _ Reseau Ville j
                (not_eq_sym HVR) S3 Hj2) as [_ E3].
    rewrite E3, E2, <- E1. split; [|exact Hnum].
    apply series_assign_same.
    + now apply R1.
    + apply (positions_lt Ville). rewrite Hj1. now left.
    + now rewrite length_map, series_length.
  - intros k Hk.
    assert (Hk0 : In k (positions Reseau (columns df) 0))
      by (rewrite Hk; now left).
    destruct (@series_after_step _ _ Trafic Reseau k HTR S1 Hk0) as [_ E1].
    assert (Hk1 : In k (positions Reseau (columns df1) 0))
      by (rewrite C1; exact Hk0).
    destruct (@series_after_step _ _ Ville Reseau k HVR S2 Hk1) as [_ E2].
    assert (Hk2 : positions Reseau (columns df2) 0 = [k]) by congruence.
    destruct (clean_reseau_at _ _ _ Hk2 H3) as [E3 Hnum].
    rewrite E3, <- E1, <- E2. split; [|exact Hnum].
    apply series_assign_same.
    + now apply R2, R1.
    + apply (positions_lt Reseau). rewrite Hk2. now left.
    + now rewrite length_map, series_length.
Qed.

Lemma Forall2_map_self {A B} (f : A -> B) (P : A -> B -> Prop) (l : list A) :
  (forall a, P a (f a)) -> Forall2 P l (map f l).
Proof.
  intros H. induction l; simpl; constructor; auto.
Qed.

(** X5.  When the cleaning of the fields returns, the Ville column holds,
    row by row: "Inconnue" where the value was missing, a text where it
    was a text, and a missing value where it was a number; the text is the
    title-cased one when its characters are below U+0100 and have
    single-character case forms, which is where the case mapping is
    modelled.  So no Ville is missing afterwards when the column held no
    number. *)
Theorem field_normalizer_ville (df df' : DataFrame) (raw : list cell) :
  rectangular df ->
  field_normalizer df = Ok df' ->
  getitem df Ville = Ok raw ->
  exists out,
    getitem df' Ville = Ok out
    /\ Forall2 (fun c c' =>
                  match c with
                  | NaN => c' = Str (py "Inconnue")
                  | Str s =>
                    exists t, c' = Str t
                              /\ (forallb plain_case s = true -> t = title s)
                  | Num _ => c' = NaN
                  end) raw out
    /\ (Forall (fun c => is_num c = false) raw ->
        Forall (fun c' => is_str c' = true) out).
Proof.
  intros Hrect H Hg. apply getitem_ok in Hg. destruct Hg as [j [Hj ->]].
  destruct (field_normalizer_columns _ _ Hrect H) as [Hc [Hv _]].
  destruct (Hv j Hj) as [Hs _].
  exists (map ville_value (series df j)).
  split; [unfold getitem; now rewrite Hc, Hj, Hs|]. split.
  - apply Forall2_map_self. intros [|s|z]; try reflexivity.
    exists (title s). now split.
  - intros Hn. apply Forall_map. eapply Forall_impl; [|exact Hn].
    intros [|s|z]; simpl; congruence.
Qed.

Lemma field_normalizer_ville_witness :
  let df := {| columns := [Station; Ville];
               rows := [[Str (py "Nation"); Str (py "paris")];
                        [Str (py "Bercy"); NaN];
                        [Str (py "Basilique"); Str (py "SAINT-DENIS")];
                        [Str (py "Mairie"); Str (py "l'haÿ-les-roses")]] |} in
  let df' := {| columns := [Station; Ville];
                rows := [[Str (py "Nation"); Str (py "Paris")];
                         [Str (py "Bercy"); Str (py "Inconnue")];
                         [Str (py "Basilique"); Str (py "Saint-Denis")];
                         [Str (py "Mairie"); Str (py "L'Haÿ-Les-Roses")]] |} in
  let raw := [Str (py "paris"); NaN; Str (py "SAINT-DENIS");
              Str (py "l'haÿ-les-roses")] in
  rectangular df
  /\ field_normalizer df = Ok df'
  /\ getitem df Ville = Ok raw
  /\ Forall (fun c => match c with
                      | Str s => forallb plain_case s = true
                      | _ => True
                      end) raw
  /\ exists out,
       getitem df' Ville = Ok out
       /\ Forall2 (fun c c' =>
                     match c with
                     | NaN => c' = Str (py "Inconnue")
                     | Str s =>
                       exists t, c' = Str t
                                 /\ (forallb plain_case s = true ->
                                     t = title s)
                     | Num _ => c' = NaN
                     end) raw out
       /\ (Forall (fun c => is_num c = false) raw ->
           Forall (fun c' => is_str c' = true) out).
Proof.
  intros df df' raw.
  assert (Hrect : rectangular df) by (repeat constructor).
  assert (Hrun : field_normalizer df = Ok df') by reflexivity.
  assert (Hg : getitem df Ville = Ok raw) by reflexivity.
  split; [exact Hrect|]. split; [exact Hrun|]. split; [exact Hg|].
  split; [repeat constructor|].
  exact (field_normalizer_ville df df' raw Hrect Hrun Hg).
Defined.

(** X6.  When the cleaning of the fields returns, the Reseau column holds,
    row by row: "Autre" where the value was missing, the text with every
    "Metro" replaced by "Métro" where it was a text, and a missing value
    where it was a number.  So no Reseau is missing afterwards when the
    column held no number. *)
Theorem field_normalizer_reseau (df df' : DataFrame) (raw : list cell) :
  rectangular df ->
  field_normalizer df = Ok df' ->
  getitem df Reseau = Ok raw ->
  exists out,
    getitem df' Reseau = Ok out
    /\ Forall2 (fun c c' =>
                  match c with
                  | NaN => c' = Str (py "Autre")
                  | Str s => c' = Str (replace (py "Metro") (py "Métro") s)
                  | Num _ => c' = NaN
                  end) raw out
    /\ (Forall (fun c => is_num c = false) raw ->
        Forall (fun c' => is_str c' = true) out).
Proof.
  intros Hrect H Hg. apply getitem_ok in Hg. destruct Hg as [k [Hk ->]].
  destruct (field_normalizer_columns _ _ Hrect H) as [Hc [_ Hr]].
  destruct (Hr k Hk) as [Hs _].
  exists (map reseau_value (series df k)).
  split; [unfold getitem; now rewrite Hc, Hk, Hs|]. split.
  - apply Forall2_map_self. intros [|s|z]; reflexivity.
  - intros Hn. apply Forall_map. eapply Forall_impl; [|exact Hn].
    intros [|s|z]; simpl; congruence.
Qed.

Lemma field_normalizer_reseau_witness :
  let df := {| columns := [Reseau; Station];
               rows := [[Str (py "Metro"); Str (py "Nation")];
                        [NaN; Str (py "Bercy")];
                        [Str (py "RER"); Str (py "Auber")]] |} in
  let df' := {| columns := [Reseau; Station];
                rows := [[Str (py "Métro"); Str (py "Nation")];
                         [Str (py "Autre"); Str (py "Bercy")];
                         [Str (py "RER"); Str (py "Auber")]] |} in
  let raw := [Str (py "Metro"); NaN; Str (py "RER")] in
  rectangular df
  /\ field_normalizer df = Ok df'
  /\ getitem df Reseau = Ok raw
  /\ exists out,
       getitem df' Reseau = Ok out
       /\ Forall2 (fun c c' =>
                     match c with
                     | NaN => c' = Str (py "Autre")
                     | Str s => c' = Str (replace (py "Metro") (py "Métro") s)
                     | Num _ => c' = NaN
                     end) raw out
       /\ (Forall (fun c => is_num c = false) raw ->
           Forall (fun c' => is_str c' = true) out).
Proof.
  intros df df' raw.
  assert (Hrect : rectangular df) by (repeat constructor).
  assert (Hrun : field_normalizer df = Ok df') by reflexivity.
  assert (Hg : getitem df Reseau = Ok raw) by reflexivity.
  split; [exact Hrect|]. split; [exact Hrun|]. split; [exact Hg|].
  exact (field_normalizer_reseau df df' raw Hrect Hrun Hg).
Defined.

(** X7.  A Ville or Reseau column that has rows and holds only numbers
    (a column of codes, say) has no [.str] accessor: the cleaning of the
    fields raises and no table is returned. *)
Theorem numeric_text_column_raises (df : DataFrame) (name : pystr) (j : nat) :
  rectangular df ->
  name = Ville \/ name = Reseau ->
  positions name (columns df) 0 = [j] ->
  series df j <> [] ->
  Forall (fun c => is_num c = true) (series df j) ->
  exists e, field_normalizer df = Raise e.
Proof.
  intros Hrect Hname Hj Hne Hnum.
  destruct (field_normalizer df) as [df'|e] eqn:H; [exfalso | now exists e].
  destruct (field_normalizer_columns _ _ Hrect H) as [_ [Hv Hr]].
  assert (Hsome : series df j = []
                  \/ exists c, In c (series df j) /\ is_num c = false).
  { destruct Hname as [->| ->]; [apply (Hv j Hj) | apply (Hr j Hj)]. }
  destruct Hsome as [He|[c [Hin Hc]]]; [contradiction|].
  rewrite Forall_forall in Hnum. specialize (Hnum c Hin). congruence.
Qed.

Lemma numeric_text_column_raises_witness :
  let raw := {| columns := [py "Station"; py "Commune"];
                rows := [[Str (py "Nation"); Num 75012];
                         [Str (py "Bercy"); Num 75012]] |} in
  let df := {| columns := [Station; Ville];
               rows := [[Str (py "Nation"); Num 75012];
                        [Str (py "Bercy"); Num 75012]] |} in
  rename_headers raw = df
  /\ load_data {| path_exists := true; read_csv := Some raw |}
     = Raise AttributeError
  /\ rectangular df
  /\ positions Ville (columns df) 0 = [1%nat]
  /\ series df 1 <> []
  /\ Forall (fun c => is_num c = true) (series df 1)
  /\ exists e, field_normalizer df = Raise e.
Proof.
  intros raw df.
  assert (Hrect : rectangular df) by (repeat constructor).
  assert (Hj : positions Ville (columns df) 0 = [1%nat]) by reflexivity.
  assert (Hne : series df 1 <> []) by discriminate.
  assert (Hnum : Forall (fun c => is_num c = true) (series df 1))
    by (repeat constructor).
  split; [reflexivity|]. split; [reflexivity|]. split; [exact Hrect|].
  split; [exact Hj|]. split; [exact Hne|]. split; [exact Hnum|].
  exact (numeric_text_column_raises df Ville 1%nat Hrect
           (or_introl eq_refl) Hj Hne Hnum).
Defined.

(* ================================================================= *)
(** ** The replacement of "Metro" *)

Lemma Metro_chars :
  py "Metro" = [77; 101; 116; 114; 111]%N
  /\ py "Métro" = [77; 233; 116; 114; 111]%N.
Proof. split; reflexivity. Qed.

(** A text without the old text is left as it is. *)
Lemma replace_absent (old new s : pystr) :
  contains old s = false -> replace old new s = s.
Proof.
  unfold replace. induction s as [|a s IH]; simpl; [reflexivity|].
  intros H. apply orb_false_iff in H. destruct H as [H1 H2].
  change (match old with
          | [] => true
          | a0 :: p' =>
              (a0 =? a)%N && startswith p' s
          end) with (startswith old (a :: s)).
  rewrite H1. f_equal. apply IH. exact H2.
Qed.

Lemma startswith_cons c q a s :
  startswith (c :: q) (a :: s) = ((c =? a)%N && startswith q s)%bool.
Proof. reflexivity. Qed.

(** What starts the replaced text without a capital M started the
    text. *)
Lemma replace_Metro_prefix (q : pystr) : forall s,
  Forall (fun c => c <> 77%N) q ->
  startswith q
    (replace_from [77; 101; 116; 114; 111]%N [77; 233; 116; 114; 111]%N 0 s)
  = true ->
  startswith q s = true.
Proof.
  induction q as [|c q IH]; intros s Hq H; [reflexivity|].
  inversion Hq as [|? ? Hc Hq']; subst.
  destruct s as [|a s]; [simpl in H; discriminate|].
  cbn [replace_from] in H.
  destruct (startswith [77; 101; 116; 114; 111]%N (a :: s)).
  - simpl in H. apply andb_true_iff in H. destruct H as [H _].
    apply N.eqb_eq in H. contradiction.
  - simpl in H. apply andb_true_iff in H. destruct H as [H1 H2].
    simpl. rewrite H1. simpl. apply IH; assumption.
Qed.

Lemma replace_Metro_none (s : pystr) : forall k,
  contains [77; 101; 116; 114; 111]%N
    (replace_from [77; 101; 116; 114; 111]%N [77; 233; 116; 114; 111]%N k s)
  = false.
Proof.
  induction s as [|a s IH]; intros k; [reflexivity|].
  cbn [replace_from]. destruct k as [|k]; [|apply IH].
  destruct (startswith [77; 101; 116; 114; 111]%N (a :: s)) eqn:E.
  - simpl. apply IH.
  - cbn [contains]. rewrite IH, orb_false_r.
    destruct (startswith [77; 101; 116; 114; 111]%N
                (a :: replace_from [77; 101; 116; 114; 111]%N
                        [77; 233; 116; 114; 111]%N 0 s)) eqn:F;
      [|reflexivity].
    rewrite startswith_cons in F. apply andb_true_iff in F.
    destruct F as [F1 F2].
    apply replace_Metro_prefix in F2.
    + rewrite startswith_cons, F1, F2 in E. discriminate.
    + repeat constructor; discriminate.
Qed.

(** X8.  After the replacement of line 69 no "Metro" is left in a network
    name, so replacing again changes nothing; and a name without "Metro"
    is left exactly as it is. *)
Theorem replace_Metro (s : pystr) :
  contains (py "Metro") (replace (py "Metro") (py "Métro") s) = false
  /\ replace (py "Metro") (py "Métro")
       (replace (py "Metro") (py "Métro") s)
     = replace (py "Metro") (py "Métro") s
  /\ (contains (py "Metro") s = false ->
      replace (py "Metro") (py "Métro") s = s).
Proof.
  assert (H : contains (py "Metro") (replace (py "Metro") (py "Métro") s)
              = false).
  { destruct Metro_chars as [-> ->]. apply replace_Metro_none. }
  split; [exact H|]. split.
  - apply replace_absent. exact H.
  - apply replace_absent.
Qed.

Example replace_Metro_example :
  replace (py "Metro") (py "Métro") (py "Metro / MMetroetro / RER")
  = py "Métro / MMétroetro / RER".
Proof. reflexivity. Qed.

(* ================================================================= *)
(** ** Cleaned headers *)

Lemma replace_one_char (a b : N) (s : pystr) :
  replace [a] [b] s = map (fun c => if (a =? c)%N then b else c) s.
Proof.
  unfold replace. induction s as [|x s IH]; [reflexivity|].
  cbn [replace_from map]. rewrite startswith_cons. simpl startswith.
  rewrite andb_true_r. simpl length. simpl Nat.sub.
  destruct (a =? x)%N; simpl; now rewrite IH.
Qed.

Lemma lstrip_fixed (s : pystr) :
  match s with
  | [] => True
  | c :: _ => isspace c = false
  end ->
  lstrip s = s.
Proof.
  destruct s as [|c s]; simpl; [reflexivity|]. now intros ->.
Qed.

Lemma lstrip_head (s : pystr) :
  match lstrip s with
  | [] => True
  | c :: _ => isspace c = false
  end.
Proof.
  induction s as [|c s IH]; simpl; [exact I|].
  destruct (isspace c) eqn:E; [exact IH | exact E].
Qed.

Lemma lstrip_suffix (s : pystr) : exists w, s = w ++ lstrip s.
Proof.
  induction s as [|c s [w IH]]; simpl; [now exists []|].
  destruct (isspace c).
  - exists (c :: w). simpl. now f_equal.
  - now exists [].
Qed.

(** A stripped text neither starts nor ends with white space. *)
Lemma strip_ends (x : pystr) :
  lstrip (strip x) = strip x /\ lstrip (rev (strip x)) = rev (strip x).
Proof.
  unfold strip. set (y := lstrip x). set (z := lstrip (rev y)).
  split.
  - apply lstrip_fixed.
    destruct (lstrip_suffix (rev y)) as [w Hw]. fold z in Hw.
    assert (Hy : y = rev z ++ rev w).
    { rewrite <- (rev_involutive y), Hw, rev_app_distr. reflexivity. }
    destruct (rev z) as [|c t] eqn:Ez; [exact I|].
    pose proof (lstrip_head x) as Hh. fold y in Hh. rewrite Hy in Hh.
    exact Hh.
  - rewrite rev_involutive. apply lstrip_fixed. apply lstrip_head.
Qed.

Lemma strip_fixed (s : pystr) :
  lstrip s = s -> lstrip (rev s) = rev s -> strip s = s.
Proof.
  intros H1 H2. unfold strip. rewrite H1, H2. apply rev_involutive.
Qed.

Lemma lstrip_map_fixed (f : N -> N) (s : pystr) :
  (forall c, isspace c = false -> f c = c) ->
  lstrip s = s -> lstrip (map f s) = map f s.
Proof.
  intros Hf Hs. apply lstrip_fixed.
  pose proof (lstrip_head s) as Hh. rewrite Hs in Hh.
  destruct s as [|c s]; simpl; [exact I|]. now rewrite Hf.
Qed.

Lemma lower_fixed (s : pystr) : no_upper s -> lower s = s.
Proof.
  unfold lower. induction 1 as [|c s Hc _ IH]; simpl; [reflexivity|].
  unfold lower_char. rewrite Hc. now f_equal.
Qed.

(** X9.  A cleaned header holds no upper-case letter (of Basic Latin and
    Latin-1, the letters whose case is modelled) and no space character,
    and neither starts nor ends with white space; cleaning it again
    changes nothing. *)
Theorem normalize_header_clean (c : pystr) :
  no_upper (normalize_header c)
  /\ ~ In 32%N (normalize_header c)
  /\ strip (normalize_header c) = normalize_header c
  /\ normalize_header (normalize_header c) = normalize_header c.
Proof.
  pose proof (normalize_header_no_upper c) as Hup.
  assert (Hsp : ~ In 32%N (normalize_header c)).
  { unfold normalize_header.
    change (py " ") with [32%N]. change (py "_") with [95%N].
    rewrite replace_one_char. intros Hin.
    apply in_map_iff in Hin. destruct Hin as [x [Hx _]].
    destruct (32 =? x)%N eqn:E; [discriminate|].
    apply N.eqb_neq in E. congruence. }
  assert (Hst : strip (normalize_header c) = normalize_header c).
  { unfold normalize_header.
    change (py " ") with [32%N]. change (py "_") with [95%N].
    rewrite replace_one_char.
    destruct (strip_ends (lower c)) as [H1 H2].
    assert (Hf : forall x, isspace x = false ->
                 (if (32 =? x)%N then 95%N else x) = x).
    { intros x Hx. destruct (32 =? x)%N eqn:E; [|reflexivity].
      apply N.eqb_eq in E. subst x. discriminate. }
    apply strip_fixed.
    - now apply lstrip_map_fixed.
    - rewrite <- map_rev. now apply lstrip_map_fixed. }
  split; [exact Hup|]. split; [exact Hsp|]. split; [exact Hst|].
  unfold normalize_header at 1.
  rewrite (lower_fixed _ Hup), Hst.
  change (py " ") with [32%N]. change (py "_") with [95%N].
  rewrite replace_one_char.
  rewrite <- (map_id (normalize_header c)) at 2.
  apply map_ext_in. intros x Hx.
  destruct (32 =? x)%N eqn:E; [|reflexivity].
  apply N.eqb_eq in E. subst x. contradiction.
Qed.

(* ================================================================= *)
(** ** Which header becomes which column *)

Lemma find_first {A} (p : A -> bool) (l : list A) (a : A) :
  find p l = Some a ->
  exists l1 l2, l = l1 ++ a :: l2 /\ p a = true
                /\ forall x, In x l1 -> p x = false.
Proof.
  induction l as [|x l IH]; simpl; [discriminate|].
  destruct (p x) eqn:E.
  - intros H. injection H as <-. exists [], l. now repeat split.
  - intros H. destruct (IH H) as [l1 [l2 [-> [Ha Hl1]]]].
    exists (x :: l1), l2. repeat split; [assumption|].
    intros y [<-|Hy]; [assumption | now apply Hl1].
Qed.

(** X10.  A header is renamed to a canonical field only if it contains one
    of the keywords of that field and no header before it contains any of
    them. *)
Theorem renamed_header_matches (cols : list pystr) (h f : pystr) :
  renamed_to cols h = Some f ->
  exists keys l1 l2,
    In (f, keys) field_keys
    /\ cols = l1 ++ h :: l2
    /\ (exists k, In k keys /\ contains k h = true)
    /\ (forall c k, In c l1 -> In k keys -> contains k c = false).
Proof.
  intros H. apply renamed_to_claims in H.
  destruct H as [[f' keys] [Hin [Hf Hg]]]. simpl in Hf, Hg. subst f'.
  unfold get_col in Hg. apply find_first in Hg.
  destruct Hg as [l1 [l2 [Hcols [Hm Hbefore]]]].
  exists keys, l1, l2. split; [exact Hin|]. split; [exact Hcols|]. split.
  - apply existsb_exists in Hm. exact Hm.
  - intros c k Hc Hk. specialize (Hbefore c Hc).
    destruct (contains k c) eqn:E; [|reflexivity].
    assert (Hex : existsb (fun k => contains k c) keys = true)
      by (apply existsb_exists; now exists k).
    congruence.
Qed.

Lemma renamed_header_matches_witness :
  let cols := [py "rang"; py "réseau"; py "station"] in
  renamed_to cols (py "station") = Some Station
  /\ exists keys l1 l2,
       In (Station, keys) field_keys
       /\ cols = l1 ++ py "station" :: l2
       /\ (exists k, In k keys /\ contains k (py "station") = true)
       /\ (forall c k, In c l1 -> In k keys -> contains k c = false).
Proof.
  intros cols.
  assert (H : renamed_to cols (py "station") = Some Station) by reflexivity.
  split; [exact H|].
  exact (renamed_header_matches cols (py "station") Station H).
Defined.

Lemma field_keys_NoDup : NoDup field_keys.
Proof.
  repeat constructor; simpl; intuition discriminate.
Qed.

Lemma renamed_frame_label (raw : DataFrame) (fk : pystr * list pystr) :
  In fk field_keys ->
  has_column (fst fk) (rename_headers raw) = true ->
  exists h, renamed_to (map normalize_header (columns raw)) h = Some (fst fk).
Proof.
  intros Hfk Hcol. apply has_column_In in Hcol.
  unfold rename_headers, rename in Hcol. simpl in Hcol.
  apply in_map_iff in Hcol. destruct Hcol as [c [Hc Hin]].
  fold (renamed_to (map normalize_header (columns raw)) c) in Hc.
  destruct (renamed_to (map normalize_header (columns raw)) c) as [k|] eqn:E.
  - subst k. now exists c.
  - exfalso. apply (canonical_label_upper Hfk).
    rewrite <- Hc. apply in_map_iff in Hin.
    destruct Hin as [c0 [<- _]]. apply normalize_header_no_upper.
Qed.

(** X11.  When the scans of two fields select the same header, the table
    has no column for the earlier of the two: the header goes to the later
    field and nothing else is renamed to the earlier one, even if another
    header contains one of its keywords. *)
Theorem earlier_field_loses_column
    (raw : DataFrame) (l1 l2 l3 : list (pystr * list pystr))
    (fk1 fk2 : pystr * list pystr) (h : pystr) :
  field_keys = l1 ++ fk1 :: l2 ++ fk2 :: l3 ->
  get_col (map normalize_header (columns raw)) (snd fk1) = Some h ->
  get_col (map normalize_header (columns raw)) (snd fk2) = Some h ->
  has_column (fst fk1) (rename_headers raw) = false.
Proof.
  intros Hfk H1 H2.
  set (cols := map normalize_header (columns raw)) in *.
  assert (Hin1 : In fk1 field_keys)
    by (rewrite Hfk; apply in_or_app; right; now left).
  assert (Hlater : ~ In fk1 (l2 ++ fk2 :: l3)).
  { pose proof field_keys_NoDup as Hnd. rewrite Hfk in Hnd.
    apply NoDup_remove_2 in Hnd. intros Hin. apply Hnd.
    apply in_or_app. now right. }
  destruct (has_column (fst fk1) (rename_headers raw)) eqn:Hcol;
    [exfalso | reflexivity].
  destruct (renamed_frame_label raw fk1 Hin1 Hcol) as [h' Hr].
  fold cols in Hr.
  pose proof Hr as Hr'. apply renamed_to_claims in Hr'.
  destruct Hr' as [fk [Hin [Hf Hg]]].
  assert (fk = fk1) by (now apply field_keys_functional). subst fk.
  assert (h' = h) by congruence. subst h'.
  rewrite renamed_to_claimant in Hr. unfold last_claimant in Hr.
  rewrite Hfk in Hr.
  assert (Hrev : rev (l1 ++ fk1 :: l2 ++ fk2 :: l3)
                 = rev l3 ++ fk2 :: rev (l1 ++ fk1 :: l2)).
  { change (l1 ++ fk1 :: l2 ++ fk2 :: l3)
      with (l1 ++ (fk1 :: l2) ++ fk2 :: l3).
    rewrite app_assoc, rev_app_distr. cbn [rev].
    rewrite <- app_assoc. reflexivity. }
  rewrite Hrev, find_app_first in Hr.
  assert (Hc2 : claims cols h fk2 = true).
  { unfold claims. rewrite H2. simpl. apply pystr_eqb_refl. }
  destruct (find (claims cols h) (rev l3)) as [fk|] eqn:F.
  - simpl in Hr. injection Hr as Hr.
    apply find_some in F. destruct F as [F _]. apply in_rev in F.
    assert (Hin3 : In fk field_keys).
    { rewrite Hfk. apply in_or_app. right. right.
      apply in_or_app. right. now right. }
    assert (fk = fk1) by (now apply field_keys_functional). subst fk.
    apply Hlater. apply in_or_app. right. now right.
  - simpl in Hr. rewrite Hc2 in Hr. simpl in Hr. injection Hr as Hr.
    assert (Hin2 : In fk2 field_keys).
    { rewrite Hfk. apply in_or_app. right. right.
      apply in_or_app. right. now left. }
    assert (fk2 = fk1) by (now apply field_keys_functional). subst fk2.
    apply Hlater. apply in_or_app. right. now left.
Qed.

Lemma earlier_field_loses_column_witness :
  let raw := {| columns := [py "Nom Reseau"; py "Station"];
                rows := [[Str (py "Metro"); Str (py "Nation")]] |} in
  let fk1 := (Reseau, [py "reseau"; py "réseau"]) in
  let fk2 := (Station, [py "station"; py "nom"]) in
  field_keys
  = [] ++ fk1 :: [] ++ fk2 :: [(Trafic, [py "trafic"; py "validations"]);
                               (Ville, [py "ville"; py "commune"]);
                               (Arr, [py "arrondissement"])]
  /\ get_col (map normalize_header (columns raw)) (snd fk1)
     = Some (py "nom_reseau")
  /\ get_col (map normalize_header (columns raw)) (snd fk2)
     = Some (py "nom_reseau")
  /\ columns (rename_headers raw) = [Station; py "station"]
  /\ has_column (fst fk1) (rename_headers raw) = false.
Proof.
  intros raw fk1 fk2.
  split; [reflexivity|]. split; [reflexivity|]. split; [reflexivity|].
  split; [reflexivity|].
  apply (earlier_field_loses_column raw [] []
           [(Trafic, [py "trafic"; py "validations"]);
            (Ville, [py "ville"; py "commune"]);
            (Arr, [py "arrondissement"])]
           fk1 fk2 (py "nom_reseau"));
    reflexivity.
Defined.




(* ================================================================= *)
(** ** The sums per city and network *)

Lemma pair_eqb_eq a b : pair_eqb a b = true <-> a = b.
Proof.
  unfold pair_eqb. destruct (pair_eq_dec a b); split; congruence.
Qed.

Lemma pair_indicator c z ks :
  NoDup ks ->
  exact_sum (map (fun k => if pair_eqb c k then z else 0) ks) =
  if existsb (pair_eqb c) ks then z else 0.
Proof.
  induction 1 as [|k ks Hk Hnd IH]; [reflexivity|].
  cbn [map existsb]. rewrite exact_sum_cons, IH.
  destruct (pair_eqb c k) eqn:E; simpl; [|reflexivity].
  apply pair_eqb_eq in E. subst k.
  destruct (existsb (pair_eqb c) ks) eqn:Ex; [|lia].
  apply existsb_exists in Ex. destruct Ex as [k [Hin Hck]].
  apply pair_eqb_eq in Hck. subst k. contradiction.
Qed.

Lemma pair_sums_total ks kv :
  NoDup ks ->
  exact_sum (map (fun k => exact_sum (pair_values k kv)) ks) =
  exact_sum (map snd (filter (fun p => existsb (pair_eqb (fst p)) ks) kv)).
Proof.
  intros Hnd. induction kv as [|[c z] kv IH].
  - unfold pair_values. simpl. apply exact_sum_map_zero.
  - rewrite (map_ext _ (fun k => (if pair_eqb c k then z else 0)
                                 + exact_sum (pair_values k kv))).
    + rewrite exact_sum_map_add, IH, pair_indicator by assumption.
      simpl. destruct (existsb (pair_eqb c) ks); reflexivity.
    + intros k. unfold pair_values. simpl.
      destruct (pair_eqb c k); reflexivity.
Qed.

Lemma insert_pair_perm x l : Permutation (insert_pair x l) (x :: l).
Proof.
  induction l as [|y l IH]; simpl; [reflexivity|].
  destruct (pair_leb x y); [reflexivity|].
  rewrite IH. apply perm_swap.
Qed.

Lemma group_pairs_perm keys :
  Permutation (group_pairs keys)
    (nodup pair_eq_dec (filter both_present keys)).
Proof.
  unfold group_pairs.
  induction (nodup pair_eq_dec (filter both_present keys))
    as [|x l IH]; simpl; [reflexivity|].
  rewrite insert_pair_perm. now constructor.
Qed.

Lemma group_pairs_NoDup keys : NoDup (group_pairs keys).
Proof.
  eapply Permutation_NoDup.
  - symmetry. apply group_pairs_perm.
  - apply NoDup_nodup.
Qed.

Lemma group_pairs_In keys k :
  In k (group_pairs keys) <-> In k keys /\ both_present k = true.
Proof.
  split.
  - intros H. apply (Permutation_in _ (group_pairs_perm keys)) in H.
    apply nodup_In, filter_In in H. exact H.
  - intros H.
    apply (Permutation_in _ (Permutation_sym (group_pairs_perm keys))).
    apply nodup_In, filter_In. exact H.
Qed.

Lemma existsb_group_pairs keys p :
  In p keys -> existsb (pair_eqb p) (group_pairs keys) = both_present p.
Proof.
  intros Hin. destruct (existsb (pair_eqb p) (group_pairs keys)) eqn:E.
  - apply existsb_exists in E. destruct E as [k [Hk Hpk]].
    apply pair_eqb_eq in Hpk. subst k.
    apply group_pairs_In in Hk. now destruct Hk as [_ ->].
  - destruct (both_present p) eqn:B; [|reflexivity].
    assert (Hk : In p (group_pairs keys)) by (now apply group_pairs_In).
    assert (Ex : existsb (pair_eqb p) (group_pairs keys) = true)
      by (apply existsb_exists; exists p; split;
          [assumption | now apply pair_eqb_eq]).
    congruence.
Qed.

Lemma treemap_groups_run df villes res ints :
  getitem df Ville = Ok villes ->
  getitem df Reseau = Ok res ->
  getitem df Trafic = Ok (map Num ints) ->
  treemap_groups df
  = Ok {| columns := [Ville; Reseau; Trafic];
          rows := map (fun g : cell * cell * Z =>
                         [fst (fst g); snd (fst g); Num (snd g)])
                      (map (fun k => (k, pair_sum k
                                           (combine (combine villes res) ints)))
                           (group_pairs (combine villes res))) |}
  /\ length villes = length (rows df)
  /\ length res = length (rows df)
  /\ length ints = length (rows df).
Proof.
  intros Hv Hr Ht. split.
  - unfold treemap_groups. rewrite Hv, Hr, Ht. simpl.
    rewrite int_values_nums. simpl. rewrite map_map. reflexivity.
  - apply getitem_ok in Hv. destruct Hv as [i [_ ->]].
    apply getitem_ok in Hr. destruct Hr as [j [_ ->]].
    apply getitem_ok in Ht. destruct Ht as [k [_ Ht]].
    apply (f_equal (@length cell)) in Ht.
    rewrite length_map, series_length in Ht.
    rewrite !series_length. auto.
Qed.

(** X13.  The table grouped by city and network has one row per distinct
    pair (Ville, Reseau) of the view of which neither part is missing; the
    Trafic of a row is the sum of the Trafic of the rows with that pair;
    the sums add up to the Trafic of the rows with both keys present, which
    is all the Trafic of the view when no Ville and no Reseau is missing.
    The sums are the ones the code takes, in [int64]: they wrap around,
    and they are the exact sums when the magnitudes of the Trafic values
    add up to less than 2^63. *)
Theorem treemap_groups_sums
    (df : DataFrame) (villes res : list cell) (ints : list Z) :
  getitem df Ville = Ok villes ->
  getitem df Reseau = Ok res ->
  getitem df Trafic = Ok (map Num ints) ->
  exists groups : list (cell * cell * Z),
    treemap_groups df
    = Ok {| columns := [Ville; Reseau; Trafic];
            rows := map (fun g => [fst (fst g); snd (fst g); Num (snd g)])
                        groups |}
    /\ NoDup (map fst groups)
    /\ (forall k, In k (map fst groups) <->
                  In k (combine villes res)
                  /\ fst k <> NaN /\ snd k <> NaN)
    /\ (forall g, In g groups ->
                  snd g = sum (pair_values (fst g)
                                 (combine (combine villes res) ints)))
    /\ sum (map snd groups)
       = sum (map snd (filter (fun p => both_present (fst p))
                              (combine (combine villes res) ints)))
    /\ (Forall (fun k => k <> NaN) villes ->
        Forall (fun k => k <> NaN) res ->
        sum (map snd groups) = sum ints)
    /\ (exact_sum (map Z.abs ints) < 2 ^ 63 ->
        (forall g, In g groups ->
                   snd g = exact_sum (pair_values (fst g)
                                        (combine (combine villes res) ints)))
        /\ exact_sum (map snd groups)
           = exact_sum (map snd (filter (fun p => both_present (fst p))
                                        (combine (combine villes res) ints)))
        /\ sum ints = exact_sum ints).
Proof.
  intros Hv Hr Ht.
  destruct (treemap_groups_run df villes res ints Hv Hr Ht)
    as [Hrun [Lv [Lr Li]]].
  set (keys := combine villes res) in *.
  set (kv := combine keys ints) in *.
  assert (Hkv : map snd kv = ints).
  { unfold kv. apply map_snd_combine.
    unfold keys. rewrite length_combine. lia. }
  exists (map (fun k => (k, pair_sum k kv)) (group_pairs keys)).
  assert (Hfst : map fst (map (fun k => (k, pair_sum k kv))
                              (group_pairs keys)) = group_pairs keys).
  { rewrite map_map. simpl. apply map_id. }
  assert (Hexact : exact_sum (map (fun k => exact_sum (pair_values k kv))
                                  (group_pairs keys))
                   = exact_sum (map snd (filter (fun p => both_present (fst p))
                                                kv))).
  { rewrite pair_sums_total by apply group_pairs_NoDup.
    f_equal. f_equal. apply filter_ext_in. intros [c z] Hin. simpl.
    apply existsb_group_pairs. unfold kv in Hin.
    now apply in_combine_l in Hin. }
  assert (Hsum : sum (map snd (map (fun k => (k, pair_sum k kv))
                                   (group_pairs keys)))
                 = sum (map snd (filter (fun p => both_present (fst p)) kv))).
  { rewrite map_map. cbn [snd]. unfold pair_sum.
    rewrite sum_map_sum, Hexact. symmetry. apply sum_exact. }
  split; [exact Hrun|]. split; [|split; [|split; [|split; [|split]]]].
  - rewrite Hfst. apply group_pairs_NoDup.
  - intros k. rewrite Hfst, group_pairs_In. unfold both_present.
    rewrite andb_true_iff, !negb_true_iff.
    destruct k as [[|s1|z1] [|s2|z2]]; simpl;
      intuition (try discriminate; try congruence).
  - intros g Hg. apply in_map_iff in Hg. destruct Hg as [k [<- _]].
    reflexivity.
  - exact Hsum.
  - intros Nv Nr. rewrite Hsum, filter_all.
    + now rewrite Hkv.
    + apply Forall_forall. intros [[v r] z] Hin. simpl.
      unfold kv, keys in Hin. apply in_combine_l in Hin.
      pose proof (in_combine_l _ _ _ _ Hin) as Hiv.
      pose proof (in_combine_r _ _ _ _ Hin) as Hir.
      rewrite Forall_forall in Nv, Nr.
      specialize (Nv v Hiv). specialize (Nr r Hir).
      unfold both_present. simpl.
      destruct v, r; simpl; congruence.
  - intros Hb.
    assert (Hgrp : forall k, pair_sum k kv = exact_sum (pair_values k kv)).
    { intros k. unfold pair_sum. apply sum_small.
      eapply Z.le_lt_trans; [|exact Hb].
      unfold pair_values. rewrite <- Hkv. apply exact_sum_filter_abs. }
    split; [|split].
    + intros g Hg. apply in_map_iff in Hg. destruct Hg as [k [<- _]].
      apply Hgrp.
    + rewrite map_map. cbn [snd].
      rewrite (map_ext _ (fun k => exact_sum (pair_values k kv)))
        by (intros k; apply Hgrp).
      exact Hexact.
    + now apply sum_small.
Qed.

Lemma treemap_groups_sums_witness :
  let df := {| columns := [Reseau; Station; Trafic; Ville];
               rows := [[Str (py "Métro"); Str (py "Nation");
                         Num 12; Str (py "Paris")];
                        [Str (py "RER"); Str (py "Auber");
                         Num 9; Str (py "Paris")];
                        [Str (py "Métro"); Str (py "Bercy");
                         Num 5; Str (py "Paris")];
                        [Str (py "Métro"); Str (py "Robespierre");
                         Num 3; Str (py "Montreuil")]] |} in
  let villes := [Str (py "Paris"); Str (py "Paris"); Str (py "Paris");
                 Str (py "Montreuil")] in
  let res := [Str (py "Métro"); Str (py "RER"); Str (py "Métro");
              Str (py "Métro")] in
  let ints := [12; 9; 5; 3] in
  getitem df Ville = Ok villes
  /\ getitem df Reseau = Ok res
  /\ getitem df Trafic = Ok (map Num ints)
  /\ exact_sum (map Z.abs ints) < 2 ^ 63
  /\ treemap_groups df
     = Ok {| columns := [Ville; Reseau; Trafic];
             rows := [[Str (py "Montreuil"); Str (py "Métro"); Num 3];
                      [Str (py "Paris"); Str (py "Métro"); Num 17];
                      [Str (py "Paris"); Str (py "RER"); Num 9]] |}
  /\ exists groups : list (cell * cell * Z),
       treemap_groups df
       = Ok {| columns := [Ville; Reseau; Trafic];
               rows := map (fun g => [fst (fst g); snd (fst g); Num (snd g)])
                           groups |}
       /\ NoDup (map fst groups)
       /\ (forall k, In k (map fst groups) <->
                     In k (combine villes res)
                     /\ fst k <> NaN /\ snd k <> NaN)
       /\ (forall g, In g groups ->
                     snd g = sum (pair_values (fst g)
                                    (combine (combine villes res) ints)))
       /\ sum (map snd groups)
          = sum (map snd (filter (fun p => both_present (fst p))
                                 (combine (combine villes res) ints)))
       /\ (Forall (fun k => k <> NaN) villes ->
           Forall (fun k => k <> NaN) res ->
           sum (map snd groups) = sum ints)
       /\ (exact_sum (map Z.abs ints) < 2 ^ 63 ->
           (forall g, In g groups ->
                      snd g = exact_sum (pair_values (fst g)
                                           (combine (combine villes res)
                                                    ints)))
           /\ exact_sum (map snd groups)
              = exact_sum (map snd (filter (fun p => both_present (fst p))
                                           (combine (combine villes res)
                                                    ints)))
           /\ sum ints = exact_sum ints).
Proof.
  intros df villes res ints.
  assert (Hv : getitem df Ville = Ok villes) by reflexivity.
  assert (Hr : getitem df Reseau = Ok res) by reflexivity.
  assert (Ht : getitem df Trafic = Ok (map Num ints)) by reflexivity.
  split; [exact Hv|]. split; [exact Hr|]. split; [exact Ht|].
  split; [vm_compute; reflexivity|].
  split; [vm_compute; reflexivity|].
  exact (treemap_groups_sums df villes res ints Hv Hr Ht).
Defined.

(** X14.  The treemap is drawn from at most 30 rows of the table grouped by
    city and network, the groups of largest summed Trafic: no group left
    out has a larger sum than a group that is kept, and all groups are kept
    when there are 30 or fewer. *)
Theorem plot_treemap_cities_largest
    (df : DataFrame) (villes res : list cell) (ints : list Z) :
  getitem df Ville = Ok villes ->
  getitem df Reseau = Ok res ->
  getitem df Trafic = Ok (map Num ints) ->
  exists grp sums sel rest,
    treemap_groups df = Ok grp
    /\ getitem grp Trafic = Ok (map Num sums)
    /\ plot_treemap_cities df
       = Ok {| columns := [Ville; Reseau; Trafic]; rows := map snd sel |}
    /\ (length sel <= 30)%nat
    /\ length sel = Nat.min 30 (length (rows grp))
    /\ (forall r, In r (map snd sel) -> In r (rows grp))
    /\ Permutation (sel ++ rest) (combine sums (rows grp))
    /\ (forall a b, In a sel -> In b rest -> fst b <= fst a).
Proof.
  intros Hv Hr Ht.
  destruct (treemap_groups_run df villes res ints Hv Hr Ht) as [Hrun _].
  set (groups := map (fun k => (k, pair_sum k
                                     (combine (combine villes res) ints)))
                     (group_pairs (combine villes res))) in *.
  set (grp := {| columns := [Ville; Reseau; Trafic];
                 rows := map (fun g : cell * cell * Z =>
                                [fst (fst g); snd (fst g); Num (snd g)])
                             groups |}) in *.
  assert (Hg : getitem grp Trafic = Ok (map Num (map snd groups))).
  { unfold getitem, grp, series. simpl. rewrite !map_map. reflexivity. }
  destruct (@largest_spec 30 grp (map snd groups) Hg)
    as [sel [rest [Hl [Hlen [Hperm Hmax]]]]].
  exists grp, (map snd groups), sel, rest.
  split; [exact Hrun|]. split; [exact Hg|]. split.
  { unfold plot_treemap_cities. rewrite Hrun. simpl. exact Hl. }
  split; [lia|]. split; [exact Hlen|]. split; [|split; assumption].
  intros r Hin. apply in_map_iff in Hin. destruct Hin as [a [<- Ha]].
  apply (in_combine_row (map snd groups)).
  apply (Permutation_in _ Hperm). apply in_or_app. now left.
Qed.

Lemma plot_treemap_cities_largest_witness :
  let n := 40%nat in
  let df := {| columns := [Ville; Reseau; Trafic];
               rows := map (fun i => [Str (str_of_Z (Z.of_nat i));
                                      Str (py "RER");
                                      Num (Z.of_nat i)]) (seq 0 n) |} in
  let villes := map (fun i => Str (str_of_Z (Z.of_nat i))) (seq 0 n) in
  let res := map (fun i : nat => Str (py "RER")) (seq 0 n) in
  let ints := map Z.of_nat (seq 0 n) in
  getitem df Ville = Ok villes
  /\ getitem df Reseau = Ok res
  /\ getitem df Trafic = Ok (map Num ints)
  /\ plot_treemap_cities df
     = Ok {| columns := [Ville; Reseau; Trafic];
             rows := map (fun i => [Str (str_of_Z (Z.of_nat i));
                                    Str (py "RER");
                                    Num (Z.of_nat i)]) (rev (seq 10 30)) |}
  /\ exists grp sums sel rest,
       treemap_groups df = Ok grp
       /\ getitem grp Trafic = Ok (map Num sums)
       /\ plot_treemap_cities df
          = Ok {| columns := [Ville; Reseau; Trafic]; rows := map snd sel |}
       /\ (length sel <= 30)%nat
       /\ length sel = Nat.min 30 (length (rows grp))
       /\ (forall r, In r (map snd sel) -> In r (rows grp))
       /\ Permutation (sel ++ rest) (combine sums (rows grp))
       /\ (forall a b, In a sel -> In b rest -> fst b <= fst a).
Proof.
  intros n df villes res ints.
  assert (Hv : getitem df Ville = Ok villes) by (vm_compute; reflexivity).
  assert (Hr : getitem df Reseau = Ok res) by (vm_compute; reflexivity).
  assert (Ht : getitem df Trafic = Ok (map Num ints))
    by (vm_compute; reflexivity).
  split; [exact Hv|]. split; [exact Hr|]. split; [exact Ht|].
  split; [vm_compute; reflexivity|].
  exact (plot_treemap_cities_largest df villes res ints Hv Hr Ht).
Defined.

(* ================================================================= *)
(** ** The page *)




Lemma getitem_missing df name :
  has_column name df = false -> getitem df name = Raise KeyError.
Proof.
  intros H. unfold getitem. now rewrite (has_column_positions _ _ H).
Qed.

Lemma getitem_once df name :
  (length (positions name (columns df) 0) <= 1)%nat ->
  has_column name df = true ->
  exists s, getitem df name = Ok s.
Proof.
  intros Hlen Hcol. unfold getitem.
  destruct (positions name (columns df) 0) as [|i [|? ?]] eqn:E.
  - apply has_column_In in Hcol.
    destruct (in_dec (list_eq_dec N.eq_dec) name (columns df)) as [Hin|Hn];
      [|contradiction].
    exfalso. clear Hlen Hcol. revert E. generalize 0%nat.
    induction (columns df) as [|c cols IH]; [destruct Hin|].
    intros k. simpl. destruct (pystr_eqb name c) eqn:Ec; [discriminate|].
    destruct Hin as [->|Hin]; [now rewrite pystr_eqb_refl in Ec|].
    now apply IH.
  - eauto.
  - simpl in Hlen. lia.
Qed.

(** X16.  When the table read from the file has rows but no Reseau column,
    or no Ville column, [main] raises [KeyError]: lines 156 and 161 look
    the columns up with no test of their presence. *)
Theorem main_missing_column (src : source) (ui : choices) (df : DataFrame) :
  load_data src = Ok df ->
  empty df = false ->
  has_column Reseau df = false \/ has_column Ville df = false ->
  main src ui = Raise KeyError.
Proof.
  intros Hload Hne Hmiss. unfold main. rewrite Hload. simpl. rewrite Hne.
  destruct (has_column Reseau df) eqn:Hr.
  - destruct Hmiss as [Hmiss|Hmiss]; [discriminate|].
    destruct (getitem_once df Reseau) as [res ->]; [|exact Hr|].
    + apply (load_data_labels src); [exact Hload|]. simpl. tauto.
    + simpl. now rewrite (getitem_missing _ _ Hmiss).
  - now rewrite (getitem_missing _ _ Hr).
Qed.

Lemma main_missing_column_witness :
  let raw := {| columns := [py "Ligne"; py "Station"; py "Trafic";
                            py "Ville"];
                rows := [[Str (py "M1"); Str (py "Nation");
                          Num 1200000; Str (py "Paris")]] |} in
  let src := {| path_exists := true; read_csv := Some raw |} in
  let df := {| columns := [py "ligne"; Station; Trafic; Ville];
               rows := [[Str (py "M1"); Str (py "Nation");
                         Num 1200000; Str (py "Paris")]] |} in
  let ui := {| choose_res := fun options => options;
               choose_city := fun _ => [] |} in
  load_data src = Ok df
  /\ empty df = false
  /\ (has_column Reseau df = false \/ has_column Ville df = false)
  /\ main src ui = Raise KeyError.
Proof.
  intros raw src df ui.
  assert (Hload : load_data src = Ok df) by (vm_compute; reflexivity).
  assert (Hne : empty df = false) by reflexivity.
  assert (Hmiss : has_column Reseau df = false \/ has_column Ville df = false)
    by (left; reflexivity).
  split; [exact Hload|]. split; [exact Hne|]. split; [exact Hmiss|].
  exact (main_missing_column src ui df Hload Hne Hmiss).
Defined.

Lemma nums_of (s : list cell) :
  Forall (fun c => is_num c = true) s -> exists ints, s = map Num ints.
Proof.
  induction 1 as [|c s Hc _ [ints ->]]; [now exists []|].
  destruct c as [| |z]; try discriminate. now exists (z :: ints).
Qed.

(** A view made of rows of the table has an integer [Trafic] column when
    the table has one. *)
Lemma view_trafic df ints (rs : list (list cell)) :
  getitem df Trafic = Ok (map Num ints) ->
  (forall r, In r rs -> In r (rows df)) ->
  exists ints',
    getitem {| columns := columns df; rows := rs |} Trafic
    = Ok (map Num ints').
Proof.
  intros Hg Hsub. apply getitem_ok in Hg. destruct Hg as [i [Hi Hs]].
  destruct (nums_of (series {| columns := columns df; rows := rs |} i))
    as [ints' E].
  - apply Forall_forall. intros c Hc. unfold series in Hc. simpl in Hc.
    apply in_map_iff in Hc. destruct Hc as [r [<- Hr]].
    assert (Hin : In (nth i r NaN) (map Num ints)).
    { rewrite Hs. unfold series. apply in_map_iff. exists r.
      split; [reflexivity | now apply Hsub]. }
    apply in_map_iff in Hin. destruct Hin as [z [<- _]]. reflexivity.
  - exists ints'. unfold getitem. simpl. now rewrite Hi, E.
Qed.

Lemma kpis_returns view ints k :
  getitem view Trafic = Ok (map Num ints) ->
  positions Station (columns view) 0 = [k] ->
  exists f, kpis view = Ok f.
Proof.
  intros Hg Hk. unfold kpis, top_station_of. rewrite Hg. simpl bind.
  rewrite int_values_nums. simpl bind.
  destruct (empty view) eqn:He; simpl negb; cbv iota.
  - simpl. eauto.
  - destruct ints as [|x ints].
    + exfalso. apply getitem_ok in Hg. destruct Hg as [i [_ Hs]].
      apply (f_equal (@length cell)) in Hs. simpl in Hs.
      rewrite series_length in Hs. unfold empty in He.
      destruct (columns view); [discriminate|].
      destruct (rows view); [discriminate | discriminate].
    + destruct (idxmax_spec x ints) as [m [-> _]]. simpl bind.
      unfold row_getitem. rewrite Hk. simpl. eauto.
Qed.

Lemma unique_from_Forall (P : cell -> Prop) seen s :
  Forall P s -> Forall P (unique_from seen s).
Proof.
  intros H. revert seen. induction H as [|c s Hc _ IH]; intros seen; simpl;
    [constructor|].
  destruct (existsb (cell_eqb c) seen); [apply IH|].
  constructor; [exact Hc | apply IH].
Qed.

Lemma sorted_values_texts l :
  Forall (fun c => is_str c = true) l -> exists l', sorted_values l = Ok l'.
Proof.
  intros H. unfold sorted_values.
  destruct l as [|a [|b l]]; eauto.
  assert (Hall : forallb is_str (a :: b :: l) = true)
    by (apply forallb_forall; now apply Forall_forall).
  rewrite Hall. rewrite andb_false_r. eauto.
Qed.

(** X17.  When the table read from the file has rows, a Station column,
    an integer Trafic column and only texts in its Reseau and Ville
    columns, then whatever the user selects in the two widgets (also a
    selection that leaves no row) nothing raises in [main] up to the key
    figures: the network options are the distinct Reseau values, the city
    options the distinct Ville values in sorted order, the view is the
    table filtered by the selection, and the figures are those of the
    view.  (What follows, the drawing of the charts, is not part of
    [main] here.) *)
Theorem main_reaches_key_figures
    (src : source) (ui : choices) (df : DataFrame)
    (res villes : list cell) (ints : list Z) (k : nat) :
  load_data src = Ok df ->
  empty df = false ->
  getitem df Reseau = Ok res ->
  Forall (fun c => is_str c = true) res ->
  getitem df Ville = Ok villes ->
  Forall (fun c => is_str c = true) villes ->
  getitem df Trafic = Ok (map Num ints) ->
  positions Station (columns df) 0 = [k] ->
  exists d,
    main src ui = Ok (Page d)
    /\ res_options d = unique res
    /\ sorted_values (unique villes) = Ok (cities d)
    /\ filter_stage df (choose_res ui (res_options d))
         (choose_city ui (cities d)) = Ok (df_viz d)
    /\ kpis (df_viz d) = Ok (figures d).
Proof.
  intros Hload Hne Hr _ Hv Htxt Ht Hk.
  unfold main. rewrite Hload. simpl bind. rewrite Hne, Hr. simpl bind.
  rewrite Hv. simpl bind.
  destruct (sorted_values_texts (unique villes)) as [cs Hcs].
  { now apply unique_from_Forall. }
  rewrite Hcs. simpl bind.
  pose proof Hr as Hr'. apply getitem_ok in Hr'. destruct Hr' as [i [Hi _]].
  pose proof Hv as Hv'. apply getitem_ok in Hv'. destruct Hv' as [j [Hj _]].
  pose proof (@filter_stage_form df (choose_res ui (unique res))
                (choose_city ui cs) i j Hi Hj) as Hf.
  rewrite Hf. simpl bind.
  set (rs := filter (passes i j (choose_res ui (unique res))
                       (choose_city ui cs)) (rows df)) in *.
  set (view := {| columns := columns df; rows := rs |}) in *.
  destruct (view_trafic df ints rs Ht) as [ints' Ht'].
  { intros r Hin. unfold rs in Hin. now apply filter_In in Hin. }
  fold view in Ht'.
  destruct (kpis_returns view ints' k Ht' Hk) as [f Hkpis].
  rewrite Hkpis. simpl bind.
  eexists. split; [reflexivity|]. simpl.
  split; [reflexivity|]. split; [reflexivity|]. split; [exact Hf|].
  exact Hkpis.
Qed.

Lemma main_reaches_key_figures_witness :
  let raw := {| columns := [py "Réseau"; py "Station"; py "Trafic";
                            py "Ville"];
                rows := [[Str (py "Metro"); Str (py "Nation");
                          Str (py "1 200 000"); Str (py "paris")];
                         [Str (py "RER"); Str (py "Auber");
                          Num 900000; NaN]] |} in
  let src := {| path_exists := true; read_csv := Some raw |} in
  let df := {| columns := [Reseau; Station; Trafic; Ville];
               rows := [[Str (py "Métro"); Str (py "Nation");
                         Num 1200000; Str (py "Paris")];
                        [Str (py "RER"); Str (py "Auber");
                         Num 900000; Str (py "Inconnue")]] |} in
  let ui := {| choose_res := fun options => options;
               choose_city := fun _ => [Str (py "Paris")] |} in
  load_data src = Ok df
  /\ empty df = false
  /\ getitem df Reseau = Ok [Str (py "Métro"); Str (py "RER")]
  /\ Forall (fun c => is_str c = true) [Str (py "Métro"); Str (py "RER")]
  /\ getitem df Ville = Ok [Str (py "Paris"); Str (py "Inconnue")]
  /\ Forall (fun c => is_str c = true) [Str (py "Paris"); Str (py "Inconnue")]
  /\ getitem df Trafic = Ok (map Num [1200000; 900000])
  /\ positions Station (columns df) 0 = [1%nat]
  /\ main src ui
     = Ok (Page {| res_options := [Str (py "Métro"); Str (py "RER")];
                   cities := [Str (py "Inconnue"); Str (py "Paris")];
                   df_viz := {| columns := [Reseau; Station; Trafic; Ville];
                                rows := [[Str (py "Métro"); Str (py "Nation");
                                          Num 1200000; Str (py "Paris")]] |};
                   figures := {| total := 1200000; stations := 1;
                                 top_station := Str (py "Nation");
                                 mean := Some (1200000, 1%nat) |} |})
  /\ exists d,
       main src ui = Ok (Page d)
       /\ res_options d = unique [Str (py "Métro"); Str (py "RER")]
       /\ sorted_values (unique [Str (py "Paris"); Str (py "Inconnue")])
          = Ok (cities d)
       /\ filter_stage df (choose_res ui (res_options d))
            (choose_city ui (cities d)) = Ok (df_viz d)
       /\ kpis (df_viz d) = Ok (figures d).
Proof.
  intros raw src df ui.
  assert (H1 : load_data src = Ok df) by (vm_compute; reflexivity).
  assert (H2 : empty df = false) by reflexivity.
  assert (H3 : getitem df Reseau = Ok [Str (py "Métro"); Str (py "RER")])
    by reflexivity.
  assert (H3' : Forall (fun c => is_str c = true)
                       [Str (py "Métro"); Str (py "RER")])
    by (repeat constructor).
  assert (H4 : getitem df Ville = Ok [Str (py "Paris"); Str (py "Inconnue")])
    by reflexivity.
  assert (H5 : Forall (fun c => is_str c = true)
                      [Str (py "Paris"); Str (py "Inconnue")])
    by (repeat constructor).
  assert (H6 : getitem df Trafic = Ok (map Num [1200000; 900000]))
    by reflexivity.
  assert (H7 : positions Station (columns df) 0 = [1%nat]) by reflexivity.
  repeat (split; [assumption|]).
  split; [vm_compute; reflexivity|].
  exact (main_reaches_key_figures src ui df _ _ _ _ H1 H2 H3 H3' H4 H5 H6 H7).
Defined.

(** X18.  When the Ville column of the table read from the file holds a
    missing value beside a text (what a numeric city column with a blank
    is cleaned to), [main] raises [TypeError]: line 161 sorts the distinct
    values, and a text cannot be ordered against a missing value. *)
Theorem main_city_options_mixed
    (src : source) (ui : choices) (df : DataFrame)
    (res villes : list cell) (s : pystr) :
  load_data src = Ok df ->
  empty df = false ->
  getitem df Reseau = Ok res ->
  getitem df Ville = Ok villes ->
  In NaN villes ->
  In (Str s) villes ->
  main src ui = Raise TypeError.
Proof.
  intros Hload Hne Hr Hv Hnan Hstr.
  unfold main. rewrite Hload. simpl bind. rewrite Hne, Hr. simpl bind.
  rewrite Hv. simpl bind.
  apply unique_In in Hnan. apply unique_In in Hstr.
  assert (Hex : existsb is_str (unique villes) = true)
    by (apply existsb_exists; now exists (Str s)).
  assert (Hall : forallb is_str (unique villes) = false).
  { destruct (forallb is_str (unique villes)) eqn:E; [|reflexivity].
    rewrite forallb_forall in E. now specialize (E NaN Hnan). }
  unfold sorted_values.
  destruct (unique villes) as [|a [|b l]].
  - destruct Hnan.
  - destruct Hnan as [->|[]]. destruct Hstr as [Hs|[]]. discriminate.
  - rewrite Hex, Hall. reflexivity.
Qed.

Lemma main_city_options_mixed_witness :
  let raw := {| columns := [py "Réseau"; py "Station"; py "Trafic";
                            py "Code commune"];
                rows := [[Str (py "Metro"); Str (py "Nation");
                          Num 1200000; Num 75012];
                         [Str (py "RER"); Str (py "Auber");
                          Num 900000; NaN]] |} in
  let src := {| path_exists := true; read_csv := Some raw |} in
  let df := {| columns := [Reseau; Station; Trafic; Ville];
               rows := [[Str (py "Métro"); Str (py "Nation");
                         Num 1200000; NaN];
                        [Str (py "RER"); Str (py "Auber");
                         Num 900000; Str (py "Inconnue")]] |} in
  let ui := {| choose_res := fun options => options;
               choose_city := fun _ => [] |} in
  load_data src = Ok df
  /\ empty df = false
  /\ getitem df Reseau = Ok [Str (py "Métro"); Str (py "RER")]
  /\ getitem df Ville = Ok [NaN; Str (py "Inconnue")]
  /\ main src ui = Raise TypeError.
Proof.
  intros raw src df ui.
  assert (H1 : load_data src = Ok df) by (vm_compute; reflexivity).
  assert (H2 : empty df = false) by reflexivity.
  assert (H3 : getitem df Reseau = Ok [Str (py "Métro"); Str (py "RER")])
    by reflexivity.
  assert (H4 : getitem df Ville = Ok [NaN; Str (py "Inconnue")])
    by reflexivity.
  repeat (split; [assumption|]).
  apply (main_city_options_mixed src ui df _ _ (py "Inconnue") H1 H2 H3 H4);
    simpl; tauto.
Defined.

(* ================================================================= *)
(** ** Integers through text and back *)

Lemma of_uint_acc_value d : forall acc,
  Npos (Pos.of_uint_acc d acc) = uint_value (Npos acc) d.
Proof.
  induction d; intros acc; cbn [Pos.of_uint_acc uint_value];
    [reflexivity|..]; rewrite IHd; f_equal; lia.
Qed.

Lemma of_uint_value d : Pos.of_uint d = uint_value 0 d.
Proof.
  induction d; cbn [Pos.of_uint uint_value];
    [reflexivity | exact IHd |..]; apply of_uint_acc_value.
Qed.

Lemma uint_value_to_uint p : uint_value 0 (Pos.to_uint p) = Npos p.
Proof.
  rewrite <- of_uint_value. apply DecimalPos.Unsigned.of_to.
Qed.

Lemma scan_digits_uint d : forall acc n,
  scan_digits acc n (uint_chars d)
  = (uint_value acc d, (n + Decimal.nb_digits d)%nat, []).
Proof.
  unfold uint_chars.
  induction d; intros acc n; simpl;
    [rewrite Nat.add_0_r; reflexivity|..];
    rewrite IHd, Nat.add_succ_r; reflexivity.
Qed.

Lemma uint_chars_digits d : Forall (fun c => is_digit c = true) (uint_chars d).
Proof.
  unfold uint_chars. induction d; simpl; constructor; auto.
Qed.

Lemma digit_not_space c : is_digit c = true -> isspace c = false.
Proof.
  unfold is_digit, isspace. intros H.
  rewrite andb_true_iff, !N.leb_le in H.
  apply not_true_iff_false. intros Hs.
  rewrite !orb_true_iff, !andb_true_iff, !N.leb_le, !N.eqb_eq in Hs.
  lia.
Qed.

Lemma digit_not_sign c :
  is_digit c = true -> (c =? 45)%N = false /\ (c =? 43)%N = false.
Proof.
  unfold is_digit. intros H. rewrite andb_true_iff, !N.leb_le in H.
  split; apply N.eqb_neq; lia.
Qed.

(** What a text of digits parses to, with and without a minus sign. *)
Lemma parse_decimal_digits d :
  d <> Decimal.Nil ->
  parse_decimal (uint_chars d) = Some (NDec false (uint_value 0 d) 0)
  /\ parse_decimal (45%N :: uint_chars d)
     = Some (NDec true (uint_value 0 d) 0).
Proof.
  intros Hd.
  assert (Hn : exists n, Decimal.nb_digits d = S n)
    by (destruct d; simpl; eauto; congruence).
  destruct Hn as [n Hn].
  assert (Hscan : scan_digits 0 0 (uint_chars d)
                  = (uint_value 0 d, S n, []))
    by (rewrite scan_digits_uint, Hn; reflexivity).
  split.
  - unfold parse_decimal.
    assert (Hsign : scan_sign (uint_chars d) = (false, uint_chars d)).
    { pose proof (uint_chars_digits d) as Hdig.
      destruct (uint_chars d) as [|c s]; [reflexivity|].
      inversion Hdig as [|? ? Hc _]; subst.
      destruct (digit_not_sign c Hc) as [H1 H2].
      unfold scan_sign. now rewrite H1, H2. }
    rewrite Hsign, Hscan. reflexivity.
  - unfold parse_decimal. cbn [scan_sign]. simpl N.eqb. cbv iota.
    rewrite Hscan. reflexivity.
Qed.

Lemma str_of_Z_chars z :
  match z with
  | Z0 => str_of_Z z = [48%N]
  | Zpos p => str_of_Z z = uint_chars (Pos.to_uint p)
  | Zneg p => str_of_Z z = 45%N :: uint_chars (Pos.to_uint p)
  end.
Proof.
  destruct z as [|p|p]; [reflexivity|..]; unfold str_of_Z, uint_chars; simpl;
    pose proof (DecimalPos.Unsigned.to_uint_nonnil p) as Hn;
    unfold NilZero.string_of_uint;
    destruct (Pos.to_uint p); try reflexivity; congruence.
Qed.

Lemma parse_str_of_Z z :
  parse_decimal (str_of_Z z) = Some (NDec (z <? 0) (Z.abs_N z) 0)
  /\ remove_whitespace (str_of_Z z) = str_of_Z z.
Proof.
  pose proof (str_of_Z_chars z) as Hc.
  destruct z as [|p|p].
  - split; reflexivity.
  - rewrite Hc. split.
    + destruct (parse_decimal_digits (Pos.to_uint p)
                  (DecimalPos.Unsigned.to_uint_nonnil p)) as [-> _].
      now rewrite uint_value_to_uint.
    + apply filter_all. eapply Forall_impl; [|apply uint_chars_digits].
      intros c Hd. simpl. now rewrite (digit_not_space c Hd).
  - rewrite Hc. split.
    + destruct (parse_decimal_digits (Pos.to_uint p)
                  (DecimalPos.Unsigned.to_uint_nonnil p)) as [_ ->].
      now rewrite uint_value_to_uint.
    + apply filter_all. constructor; [reflexivity|].
      eapply Forall_impl; [|apply uint_chars_digits].
      intros c Hd. simpl. now rewrite (digit_not_space c Hd).
Qed.

(** An element that reads as the decimal text of an integer of [int64],
    white space apart, is stored as that integer. *)
Lemma trafic_value_spelled c z :
  - 2 ^ 63 <= z < 2 ^ 63 ->
  remove_whitespace (astype_str c) = str_of_Z z ->
  trafic_value c = Ok z.
Proof.
  intros Hz Hs. unfold trafic_value, to_numeric. rewrite Hs.
  destruct (parse_str_of_Z z) as [-> _].
  assert (Hm : magnitude (Z.abs_N z) 0 = Z.abs z).
  { unfold magnitude. cbn [Z.leb Z.compare Z.pow].
    rewrite Z.mul_1_r. apply N2Z.inj_abs_N. }
  rewrite Hm.
  assert (Hle : (float64_max <? Z.abs z) = false).
  { apply Z.ltb_ge. pose proof float64_max_large. lia. }
  rewrite Hle. cbn [fillna_zero astype_int]. rewrite Hm. f_equal.
  destruct (z <? 0) eqn:E; [apply Z.ltb_lt in E | apply Z.ltb_ge in E];
    rewrite wrap64_small; lia.
Qed.

Lemma traverse_map {A B C} (g : A -> B) (f : B -> result C) l :
  traverse f (map g l) = traverse (fun a => f (g a)) l.
Proof.
  induction l as [|a l IH]; simpl; [reflexivity | now rewrite IH].
Qed.

(** Lines 60-62 on a table with one [Trafic] column: every element goes
    through [trafic_value]. *)
Lemma clean_trafic_run df i :
  positions Trafic (columns df) 0 = [i] ->
  clean_trafic df
  = (ints <- traverse trafic_value (series df i) ;;
     Ok (assign df i (map Num ints))).
Proof.
  intros Hi. unfold clean_trafic.
  rewrite (positions_has_column _ _ _ Hi), Hi.
  rewrite str_accessor_texts
    by (apply Forall_map, Forall_forall; reflexivity).
  cbn [bind]. rewrite !traverse_map. reflexivity.
Qed.

(** X19.  A Trafic column whose elements are integers below 10^15 in
    magnitude, as numbers or as texts that spell them in decimal with any
    white space in between (the spaces of "1 200 000", whatever white-space
    character they are), comes out of lines 60-62 as the column of those
    integers: the text of an integer parses back to it. *)
Theorem clean_trafic_integers (df : DataFrame) (i : nat) (ints : list Z) :
  rectangular df ->
  positions Trafic (columns df) 0 = [i] ->
  Forall2 (fun c z => Z.abs z < 10 ^ 15
                      /\ remove_whitespace (astype_str c) = str_of_Z z)
          (series df i) ints ->
  clean_trafic df = Ok (assign df i (map Num ints))
  /\ getitem (assign df i (map Num ints)) Trafic = Ok (map Num ints).
Proof.
  intros Hrect Hi H.
  assert (Hlen : length (map Num ints) = length (rows df)).
  { rewrite length_map, <- (series_length df i).
    symmetry. eapply Forall2_length; eassumption. }
  split.
  - rewrite (clean_trafic_run df i Hi).
    assert (Ht : traverse trafic_value (series df i) = Ok ints).
    { clear Hlen. induction H as [|c z cs zs [Hz Hs] _ IH]; [reflexivity|].
      cbn [traverse]. rewrite (trafic_value_spelled c z) by (lia || exact Hs).
      cbn [bind]. rewrite IH. reflexivity. }
    rewrite Ht. reflexivity.
  - unfold getitem. rewrite assign_columns, Hi.
    rewrite series_assign_same; [reflexivity | exact Hrect | | exact Hlen].
    apply (positions_lt Trafic). rewrite Hi. now left.
Qed.

Lemma clean_trafic_integers_witness :
  let df := {| columns := [Station; Trafic];
               rows := [[Str (py "Nation"); Str (py "1 200 000")];
                        [Str (py "Auber"); Num 900000];
                        [Str (py "Bercy");
                         Str [51; 160; 52; 48; 48; 8239; 48; 48; 48]%N];
                        [Str (py "Essai"); Str (py " -42 ")]] |} in
  let ints := [1200000; 900000; 3400000; -42] in
  rectangular df
  /\ positions Trafic (columns df) 0 = [1%nat]
  /\ Forall2 (fun c z => Z.abs z < 10 ^ 15
                         /\ remove_whitespace (astype_str c) = str_of_Z z)
             (series df 1) ints
  /\ clean_trafic df = Ok (assign df 1 (map Num ints))
  /\ getitem (assign df 1 (map Num ints)) Trafic = Ok (map Num ints).
Proof.
  intros df ints.
  assert (Hrect : rectangular df) by (repeat constructor).
  assert (Hi : positions Trafic (columns df) 0 = [1%nat]) by reflexivity.
  assert (H : Forall2 (fun c z => Z.abs z < 10 ^ 15
                         /\ remove_whitespace (astype_str c) = str_of_Z z)
                      (series df 1) ints)
    by (repeat constructor).
  split; [exact Hrect|]. split; [exact Hi|]. split; [exact H|].
  exact (clean_trafic_integers df 1%nat ints Hrect Hi H).
Defined.

Example trafic_value_spaced :
  trafic_value (Str (py "1 200 000")) = Ok 1200000
  /\ trafic_value (Str [49; 160; 50; 48; 48; 8239; 48; 48; 48]%N)
     = Ok 1200000
  /\ trafic_value (Str (py " -42 ")) = Ok (-42).
Proof. repeat split; reflexivity. Qed.

(* ================================================================= *)
(** ** The only Trafic values that cannot be cleaned *)

Lemma lower_char_i c : lower_char c = 105%N -> c = 105%N \/ c = 73%N.
Proof.
  unfold lower_char. destruct (is_upper c); intros H; [right | left]; lia.
Qed.

Lemma lower_char_sign c :
  lower_char c = 43%N \/ lower_char c = 45%N -> lower_char c = c.
Proof.
  unfold lower_char. destruct (is_upper c) eqn:E; [|reflexivity].
  unfold is_upper in E.
  rewrite orb_true_iff, !andb_true_iff, !N.leb_le in E. lia.
Qed.

(** A text whose lower-case form is a spelling of an infinity is no
    decimal literal. *)
Lemma parse_decimal_infinity t :
  In (lower t) infinity_names -> parse_decimal t = None.
Proof.
  intros H. unfold infinity_names in H. simpl in H.
  assert (Hi : forall c r, lower_char c = 105%N ->
                 parse_decimal (c :: r) = None).
  { intros c r Hc. apply lower_char_i in Hc.
    destruct Hc as [-> | ->]; reflexivity. }
  assert (Hs : forall c0 c r,
                 lower_char c0 = 43%N \/ lower_char c0 = 45%N ->
                 lower_char c = 105%N ->
                 parse_decimal (c0 :: c :: r) = None).
  { intros c0 c r H0 Hc. pose proof (lower_char_sign c0 H0) as E.
    rewrite E in H0. apply lower_char_i in Hc.
    destruct H0 as [-> | ->]; destruct Hc as [-> | ->]; reflexivity. }
  unfold lower in H.
  destruct t as [|c0 [|c1 r]];
    simpl in H;
    repeat (destruct H as [H|H]; try discriminate H);
    try contradiction;
    injection H as H0 H1;
    first [ now apply Hi
          | apply Hs; [auto | congruence] ].
Qed.

(** An element that spells an infinity cannot be cast. *)
Lemma trafic_value_infinity c :
  In (lower (remove_whitespace (astype_str c))) infinity_names ->
  trafic_value c = Raise IntCastingNaNError.
Proof.
  unfold trafic_value, to_numeric.
  set (t := remove_whitespace (astype_str c)). intros Hin.
  rewrite (parse_decimal_infinity t Hin).
  assert (Hex : existsb (pystr_eqb (lower t)) infinity_names = true).
  { apply existsb_exists. exists (lower t).
    split; [exact Hin | apply pystr_eqb_refl]. }
  unfold infinity_names in Hex. cbn [existsb] in *.
  repeat match type of Hex with
         | context [pystr_eqb ?a ?b] => destruct (pystr_eqb a b)
         end;
    try reflexivity; discriminate.
Qed.

Lemma trafic_value_raise c e :
  trafic_value c = Raise e -> e = IntCastingNaNError.
Proof.
  unfold trafic_value.
  destruct (to_numeric _); cbn [fillna_zero astype_int]; congruence.
Qed.

Lemma traverse_raise {A B} (f : A -> result B) l e :
  traverse f l = Raise e -> exists a, In a l /\ f a = Raise e.
Proof.
  induction l as [|a l IH]; cbn [traverse]; [discriminate|].
  destruct (f a) as [b|e'] eqn:Ea; cbn [bind].
  - destruct (traverse f l) as [bs|e''] eqn:El; cbn [bind]; [discriminate|].
    intros H. injection H as ->.
    destruct (IH eq_refl) as [a' [Hin Ha']].
    exists a'. split; [now right | exact Ha'].
  - intros H. injection H as ->. exists a. split; [now left | exact Ea].
Qed.

Lemma traverse_raises {A B} (f : A -> result B) l e0 :
  (forall a e, f a = Raise e -> e = e0) ->
  (exists a, In a l /\ f a = Raise e0) ->
  traverse f l = Raise e0.
Proof.
  intros Hone [a [Hin Ha]].
  destruct (traverse f l) as [bs|e] eqn:Et.
  - apply traverse_Forall2 in Et. exfalso. clear Hone.
    induction Et as [|x b xs bs' Hx _ IH]; [destruct Hin|].
    destruct Hin as [->|Hin]; [congruence | now apply IH].
  - apply traverse_raise in Et. destruct Et as [a' [_ Ha']].
    f_equal. eapply Hone; eassumption.
Qed.

(** X20.  On a Trafic column whose elements are each, once the white space
    is removed, an integer written in full, the name of an infinity or no
    number at all, lines 60-62 can fail in one way only, the cast of a
    value that is not finite, and they fail exactly when an element spells
    an infinity (in any letter case); otherwise the column is stored as
    integers, what is no number as well. *)
Theorem clean_trafic_failure (df : DataFrame) (i : nat) :
  positions Trafic (columns df) 0 = [i] ->
  Forall (fun c => exact_trafic c = true) (series df i) ->
  (forall e, clean_trafic df = Raise e -> e = IntCastingNaNError)
  /\ (clean_trafic df = Raise IntCastingNaNError <->
      Exists (fun c => In (lower (remove_whitespace (astype_str c)))
                          infinity_names) (series df i))
  /\ (~ Exists (fun c => In (lower (remove_whitespace (astype_str c)))
                          infinity_names) (series df i) ->
      exists ints, clean_trafic df = Ok (assign df i (map Num ints))).
Proof.
  intros Hi Hexact. rewrite (clean_trafic_run df i Hi).
  assert (Hraise : forall e,
            (ints <- traverse trafic_value (series df i) ;;
             Ok (assign df i (map Num ints))) = Raise e ->
            traverse trafic_value (series df i) = Raise e).
  { intros e. destruct (traverse trafic_value (series df i));
      cbn [bind]; congruence. }
  split; [|split].
  - intros e He. apply Hraise, traverse_raise in He.
    destruct He as [c [_ Hc]]. eapply trafic_value_raise; eassumption.
  - split.
    + intros He. apply Hraise, traverse_raise in He.
      destruct He as [c [Hin Hc]]. apply Exists_exists. exists c.
      split; [exact Hin|].
      rewrite Forall_forall in Hexact.
      destruct (exact_trafic_value c (Hexact c Hin))
        as [[z [Hz _]]|[_ Hn]]; [congruence | exact Hn].
    + intros He. apply Exists_exists in He. destruct He as [c [Hin Hn]].
      rewrite (traverse_raises trafic_value (series df i)
                 IntCastingNaNError); [reflexivity | |].
      * intros a e. apply trafic_value_raise.
      * exists c. split; [exact Hin | now apply trafic_value_infinity].
  - intros Hno.
    destruct (traverse_total trafic_value (l := series df i)) as [ints ->].
    + rewrite Forall_forall in *. intros c Hin.
      destruct (exact_trafic_value c (Hexact c Hin))
        as [[z [Hz _]]|[_ Hn]]; [eauto|].
      exfalso. apply Hno. apply Exists_exists. eauto.
    + cbn [bind]. eauto.
Qed.

Lemma clean_trafic_failure_witness :
  let df := {| columns := [Station; Trafic];
               rows := [[Str (py "Nation"); Str (py "1 200 000")];
                        [Str (py "Auber"); Str (py "- Infinity")];
                        [Str (py "Bercy"); Str (py "n/a")]] |} in
  positions Trafic (columns df) 0 = [1%nat]
  /\ Forall (fun c => exact_trafic c = true) (series df 1)
  /\ Exists (fun c => In (lower (remove_whitespace (astype_str c)))
                         infinity_names) (series df 1)
  /\ clean_trafic df = Raise IntCastingNaNError.
Proof.
  intros df.
  assert (Hi : positions Trafic (columns df) 0 = [1%nat]) by reflexivity.
  assert (Hexact : Forall (fun c => exact_trafic c = true) (series df 1))
    by (repeat constructor).
  assert (Hinf : Exists (fun c => In (lower (remove_whitespace (astype_str c)))
                                    infinity_names) (series df 1)).
  { apply Exists_cons_tl, Exists_cons_hd. right. right. right. right. right.
    left. reflexivity. }
  split; [exact Hi|]. split; [exact Hexact|]. split; [exact Hinf|].
  destruct (clean_trafic_failure df 1%nat Hi Hexact) as [_ [Hiff _]].
  apply Hiff. exact Hinf.
Defined.

(* ================================================================= *)
(** ** The total as it is shown *)

Lemma group_rev_step a b c d r :
  group_rev (a :: b :: c :: d :: r) = a :: b :: c :: 44%N :: group_rev (d :: r).
Proof. reflexivity. Qed.

Lemma group_rev_digits n : forall l,
  (length l <= n)%nat ->
  Forall (fun c => is_digit c = true) l ->
  filter (fun c => negb (c =? 44)%N) (group_rev l) = l
  /\ Forall (fun c => is_digit c = true \/ c = 44%N) (group_rev l).
Proof.
  assert (Hd : forall c, is_digit c = true -> negb (c =? 44)%N = true).
  { intros c Hc. unfold is_digit in Hc.
    rewrite andb_true_iff, !N.leb_le in Hc.
    apply negb_true_iff, N.eqb_neq. lia. }
  induction n as [|n IH]; intros l Hlen Hdig.
  - destruct l; [split; [reflexivity | constructor] | simpl in Hlen; lia].
  - destruct l as [|a [|b [|c [|d r]]]];
      try (split; [apply filter_all | ];
           [eapply Forall_impl; [|exact Hdig]; intros x Hx; now apply Hd
           | eapply Forall_impl; [|exact Hdig]; intros x Hx; now left]).
    rewrite group_rev_step.
    inversion Hdig as [|? ? Ha H1]; subst.
    inversion H1 as [|? ? Hb H2]; subst.
    inversion H2 as [|? ? Hc H3]; subst.
    destruct (IH (d :: r)) as [IH1 IH2]; [simpl in *; lia | exact H3 |].
    split.
    + cbn [filter]. rewrite (Hd a Ha), (Hd b Hb), (Hd c Hc). simpl negb.
      cbv iota. now rewrite IH1.
    + repeat (constructor; [tauto|]). exact IH2.
Qed.

Lemma filter_rev {A} (p : A -> bool) (l : list A) :
  filter p (rev l) = rev (filter p l).
Proof.
  induction l as [|a l IH]; simpl; [reflexivity|].
  rewrite filter_app, IH. simpl. destruct (p a); simpl;
    [reflexivity | now rewrite app_nil_r].
Qed.

Lemma str_of_Z_sign z :
  str_of_Z z = (if z <? 0 then py "-" else []) ++ str_of_Z (Z.abs z)
  /\ Forall (fun c => is_digit c = true) (str_of_Z (Z.abs z)).
Proof.
  pose proof (str_of_Z_chars z) as Hz.
  pose proof (str_of_Z_chars (Z.abs z)) as Ha.
  destruct z as [|p|p]; simpl in *.
  - split; [reflexivity | repeat constructor].
  - rewrite Ha. split; [reflexivity | apply uint_chars_digits].
  - rewrite Hz, Ha. split; [reflexivity | apply uint_chars_digits].
Qed.

(** X21.  For a total of magnitude up to 2^53 the text of the "Trafic
    Total" figure is the decimal text of the total with a space between
    the groups of three digits: it holds digits, spaces and at most a
    leading minus sign, and with the spaces removed it is exactly
    [str(total)]. *)
Theorem format_total_digits (total : Z) :
  Z.abs total <= 2 ^ 53 ->
  exists t,
    format_total total = Some t
    /\ remove_whitespace t = str_of_Z total
    /\ Forall (fun c => is_digit c = true \/ c = 32%N \/ c = 45%N) t.
Proof.
  intros Hb. unfold format_total.
  apply Z.leb_le in Hb. rewrite Hb. eexists. split; [reflexivity|].
  destruct (str_of_Z_sign total) as [Hs Hdig].
  set (ds := str_of_Z (Z.abs total)) in *.
  destruct (group_rev_digits (length (rev ds)) (rev ds) (le_n _))
    as [Hf Hg]; [now apply Forall_rev|].
  change (py ",") with [44%N]. change (py " ") with [32%N].
  rewrite replace_one_char.
  set (g := fun c : N => if (44 =? c)%N then 32%N else c).
  assert (Hdrop : forall l,
            Forall (fun c => is_digit c = true \/ c = 44%N) l ->
            remove_whitespace (map g l)
            = filter (fun c => negb (c =? 44)%N) l
            /\ Forall (fun c => is_digit c = true \/ c = 32%N \/ c = 45%N)
                      (map g l)).
  { induction 1 as [|c l Hc _ [IH1 IH2]]; [split; [reflexivity|constructor]|].
    unfold remove_whitespace in *. cbn [map filter]. rewrite IH1.
    destruct Hc as [Hc| ->].
    - assert (H44 : (44 =? c)%N = false).
      { unfold is_digit in Hc. rewrite andb_true_iff, !N.leb_le in Hc.
        apply N.eqb_neq. lia. }
      assert (Hgc : g c = c) by (unfold g; now rewrite H44).
      rewrite Hgc, (digit_not_space c Hc), N.eqb_sym, H44.
      split; [reflexivity|]. constructor; [now left | exact IH2].
    - split; [reflexivity|]. constructor; [right; now left | exact IH2]. }
  rewrite map_app. unfold remove_whitespace. rewrite filter_app.
  destruct (Hdrop (rev (group_rev (rev ds)))) as [H1 H2];
    [now apply Forall_rev|].
  fold (remove_whitespace (map g (rev (group_rev (rev ds))))).
  rewrite H1, filter_rev, Hf, rev_involutive. split.
  - rewrite Hs. f_equal. destruct (total <? 0); reflexivity.
  - apply Forall_app. split; [|exact H2].
    destruct (total <? 0);
      [constructor; [right; now right | constructor] | constructor].
Qed.

Lemma format_total_digits_witness :
  Z.abs 1234567890 <= 2 ^ 53
  /\ format_total 1234567890 = Some (py "1 234 567 890")
  /\ format_total 999 = Some (py "999")
  /\ format_total 0 = Some (py "0")
  /\ exists t,
       format_total 1234567890 = Some t
       /\ remove_whitespace t = str_of_Z 1234567890
       /\ Forall (fun c => is_digit c = true \/ c = 32%N \/ c = 45%N) t.
Proof.
  assert (H : Z.abs 1234567890 <= 2 ^ 53) by (vm_compute; discriminate).
  split; [exact H|]. repeat (split; [reflexivity|]).
  exact (format_total_digits 1234567890 H).
Defined.

(* ================================================================= *)
(** ** What the loader leaves alone *)

(** X22.  The cleaning of the fields touches the Trafic, Ville and Reseau
    columns only: every other column (Station, Arr, the columns that no
    field claimed) comes out with the values it had. *)
Theorem field_normalizer_passthrough
    (df df' : DataFrame) (name : pystr) (i : nat) :
  field_normalizer df = Ok df' ->
  name <> Trafic -> name <> Ville -> name <> Reseau ->
  In i (positions name (columns df) 0) ->
  columns df' = columns df /\ series df' i = series df i.
Proof.
  intros H HT HV HR Hi.
  destruct (field_normalizer_steps _ _ H) as [df1 [df2 [H1 [H2 H3]]]].
  pose proof (@clean_trafic_step _ _ H1) as S1.
  pose proof (@clean_ville_step _ _ H2) as S2.
  pose proof (clean_reseau_step _ _ H3) as S3.
  destruct (@series_after_step _ _ Trafic name i (not_eq_sym HT) S1 Hi)
    as [C1 E1].
  assert (Hi1 : In i (positions name (columns df1) 0)) by now rewrite C1.
  destruct (@series_after_step _ _ Ville name i (not_eq_sym HV) S2 Hi1)
    as [C2 E2].
  assert (Hi2 : In i (positions name (columns df2) 0)) by now rewrite C2.
  destruct (@series_after_step _ _ Reseau name i (not_eq_sym HR) S3 Hi2)
    as [C3 E3].
  split; congruence.
Qed.

Lemma field_normalizer_passthrough_witness :
  let df := {| columns := [Reseau; Station; Trafic; Ville; py "rang"];
               rows := [[Str (py "Metro"); Str (py "gare de lyon");
                         Str (py "1 200"); Str (py "paris"); Num 1];
                        [NaN; NaN; NaN; NaN; NaN]] |} in
  let df' := {| columns := [Reseau; Station; Trafic; Ville; py "rang"];
                rows := [[Str (py "Métro"); Str (py "gare de lyon");
                          Num 1200; Str (py "Paris"); Num 1];
                         [Str (py "Autre"); NaN; Num 0;
                          Str (py "Inconnue"); NaN]] |} in
  field_normalizer df = Ok df'
  /\ Station <> Trafic /\ Station <> Ville /\ Station <> Reseau
  /\ In 1%nat (positions Station (columns df) 0)
  /\ columns df' = columns df /\ series df' 1 = series df 1.
Proof.
  intros df df'.
  assert (H : field_normalizer df = Ok df') by reflexivity.
  assert (HT : Station <> Trafic) by discriminate.
  assert (HV : Station <> Ville) by discriminate.
  assert (HR : Station <> Reseau) by discriminate.
  assert (Hi : In 1%nat (positions Station (columns df) 0))
    by (simpl; tauto).
  repeat (split; [assumption|]).
  exact (field_normalizer_passthrough df df' Station 1%nat H HT HV HR Hi).
Defined.

(** X23.  [load_data] drops no column: the table it returns has one column
    per column of the file, in the same order, each under the field its
    cleaned header was renamed to, or under the cleaned header itself when
    no field took it.  (Stated for headers of characters below U+0100,
    where the lower-casing of the headers is modelled.) *)
Theorem load_data_columns (src : source) (raw df : DataFrame) :
  path_exists src = true ->
  read_csv src = Some raw ->
  Forall (fun h => forallb latin1 h = true) (columns raw) ->
  load_data src = Ok df ->
  columns df
  = map (fun h => match renamed_to (map normalize_header (columns raw)) h with
                  | Some field => field
                  | None => h
                  end)
        (map normalize_header (columns raw))
  /\ length (columns df) = length (columns raw).
Proof.
  intros He Hr _ H. unfold load_data in H. rewrite He, Hr in H. simpl in H.
  apply field_normalizer_shape in H. destruct H as [Hc _].
  assert (E : columns df
              = map (fun h =>
                       match renamed_to (map normalize_header (columns raw)) h
                       with
                       | Some field => field
                       | None => h
                       end)
                    (map normalize_header (columns raw)))
    by (rewrite Hc; reflexivity).
  split; [exact E|]. now rewrite E, !length_map.
Qed.

Lemma load_data_columns_witness :
  let raw := {| columns := [py "Rang"; py "Réseau"; py "Station";
                            py "Trafic"; py "Correspondance 1"; py "Ville";
                            py "Arrondissement pour Paris"];
                rows := [[Num 1; Str (py "Metro"); Str (py "GARE DU NORD");
                          Num 34503097; Str (py "4"); Str (py "Paris");
                          Num 10]] |} in
  let src := {| path_exists := true; read_csv := Some raw |} in
  let df := {| columns := [py "rang"; Reseau; Station; Trafic;
                           py "correspondance_1"; Ville; Arr];
               rows := [[Num 1; Str (py "Métro"); Str (py "GARE DU NORD");
                         Num 34503097; Str (py "4"); Str (py "Paris");
                         Num 10]] |} in
  path_exists src = true
  /\ read_csv src = Some raw
  /\ Forall (fun h => forallb latin1 h = true) (columns raw)
  /\ load_data src = Ok df
  /\ columns df
     = map (fun h =>
              match renamed_to (map normalize_header (columns raw)) h with
              | Some field => field
              | None => h
              end)
           (map normalize_header (columns raw))
  /\ length (columns df) = length (columns raw).
Proof.
  intros raw src df.
  assert (H : load_data src = Ok df) by (vm_compute; reflexivity).
  assert (Hl : Forall (fun h => forallb latin1 h = true) (columns raw))
    by (repeat constructor).
  split; [reflexivity|]. split; [reflexivity|]. split; [exact Hl|].
  split; [exact H|].
  exact (load_data_columns src raw df eq_refl eq_refl Hl H).
Defined.
